(** * Downsizing analyzer: the projection engine of [src/app/page.tsx]

    The engine is the pure function [simulate] together with its helpers
    [pct], [amortizationPayment], [growAnnual] and [npv], and the selection
    of the best scenario made by the page component.

    A JavaScript [number] is an IEEE-754 binary64 value.  The engine is
    embedded once, over an interface [Number] of the arithmetic the source
    uses, and read at two instances:

    - [R_Number]: the real numbers, the idealisation in which the
      financial formulas of the specification are stated and proved;
    - [F_Number]: binary64 floats, on which the engine runs as it does in
      JavaScript, non-finite values included.

    The horizon [years] and the loan term [mortgageYears] are integers
    ([Z]); every other numeric input is a [Number].

    The reals know no rounding, no overflow and no NaN, and a division by
    zero is a number there ([x / 0] is [0]).  Where a property of the loan
    arithmetic depends on these, the way binary64 departs from it is shown
    on [F_Number], and the statement over [R_Number] carries the bounds
    ([ordinary], [zeroOrPricedRate], a positive term) within which the two
    instances stay together. *)

From Stdlib Require Import ZArith Reals Lra Lia List Bool.
From Stdlib Require Import Floats.PrimFloat Numbers.Cyclic.Int63.Uint63.
Import ListNotations.

Set Implicit Arguments.

(** ** The arithmetic interface *)

Declare Scope num_scope.
Delimit Scope num_scope with num.

Class Number (T : Type) : Type := {
  lit : Z -> T;                 (* an integer literal, or an integer count used as a number *)
  epsilon : T;                  (* the literal 1e-6 *)
  add : T -> T -> T;
  sub : T -> T -> T;
  mul : T -> T -> T;
  div : T -> T -> T;
  neg : T -> T;
  max : T -> T -> T;            (* Math.max *)
  min : T -> T -> T;            (* Math.min *)
  pow : T -> Z -> T;            (* Math.pow, the exponent being integral *)
  eqb : T -> T -> bool;         (* === *)
  leb : T -> T -> bool;         (* <= *)
  ltb : T -> T -> bool          (* < *)
}.

Infix "+" := add : num_scope.
Infix "-" := sub : num_scope.
Infix "*" := mul : num_scope.
Infix "/" := div : num_scope.
Notation "- x" := (neg x) : num_scope.
Infix "=?" := eqb : num_scope.
Infix "<=?" := leb : num_scope.
Infix "<?" := ltb : num_scope.

(** *** Real numbers *)

Definition Reqb (x y : R) : bool := if Req_dec_T x y then true else false.
Definition Rleb (x y : R) : bool := if Rle_dec x y then true else false.
Definition Rltb (x y : R) : bool := if Rlt_dec x y then true else false.

#[export] Instance R_Number : Number R := {
  lit := IZR;
  epsilon := (/ 1000000)%R;
  add := Rplus;
  sub := Rminus;
  mul := Rmult;
  div := Rdiv;
  neg := Ropp;
  max := Rmax;
  min := Rmin;
  pow := powerRZ;
  eqb := Reqb;
  leb := Rleb;
  ltb := Rltb
}.

(** *** Binary64 floats *)

Module F.

Definition of_Z (z : Z) : float :=
  match z with
  | Z0 => PrimFloat.zero
  | Zpos _ => PrimFloat.of_uint63 (Uint63.of_Z z)
  | Zneg p => PrimFloat.opp (PrimFloat.of_uint63 (Uint63.of_Z (Zpos p)))
  end.

(* Math.max: NaN if an argument is NaN; +0 is larger than -0. *)
Definition max (a b : float) : float :=
  if PrimFloat.is_nan a || PrimFloat.is_nan b then PrimFloat.nan
  else if PrimFloat.ltb a b then b
  else if PrimFloat.ltb b a then a
  else if PrimFloat.get_sign a then b else a.

(* Math.min: NaN if an argument is NaN; -0 is smaller than +0. *)
Definition min (a b : float) : float :=
  if PrimFloat.is_nan a || PrimFloat.is_nan b then PrimFloat.nan
  else if PrimFloat.ltb a b then a
  else if PrimFloat.ltb b a then b
  else if PrimFloat.get_sign a then a else b.

(* Math.pow at an integral exponent.  ECMAScript fixes the result for the
   exponents 0 (always 1) and leaves the general case to the
   implementation; here it is the left-to-right product, which is exact
   at the exponents 0 and 1 and whenever the base is 1. *)
Definition pow_pos (x : float) (p : positive) : float :=
  Pos.iter (fun acc => PrimFloat.mul acc x) PrimFloat.one p.

Definition pow (x : float) (n : Z) : float :=
  match n with
  | Z0 => PrimFloat.one
  | Zpos p => pow_pos x p
  | Zneg p => PrimFloat.div PrimFloat.one (pow_pos x p)
  end.

Definition finite (x : float) : bool :=
  negb (PrimFloat.is_nan x) && negb (PrimFloat.is_infinity x).

End F.

#[export] Instance F_Number : Number float := {
  lit := F.of_Z;
  epsilon := 0x1.0c6f7a0b5ed8dp-20%float;   (* the binary64 value of 1e-6 *)
  add := PrimFloat.add;
  sub := PrimFloat.sub;
  mul := PrimFloat.mul;
  div := PrimFloat.div;
  neg := PrimFloat.opp;
  max := F.max;
  min := F.min;
  pow := F.pow;
  eqb := PrimFloat.eqb;
  leb := PrimFloat.leb;
  ltb := PrimFloat.ltb
}.

(** ** Data model *)

(** [type Inputs]. *)
Record Inputs (T : Type) : Type := mkInputs {
  (* Current home (sale assumptions for A/B/C) *)
  currentHomeValue : T;
  currentMortgageBalance : T;
  sellingCostsPct : T;
  capGainsTaxPct : T;
  currentHomeAppreciationPct : T;
  (* Smaller home (Scenario B) *)
  smallerHomePrice : T;
  smallerHomeClosingPct : T;
  downPaymentFromProceedsPct : T;
  mortgageRatePct : T;
  mortgageYears : Z;
  propertyTaxPct : T;
  insuranceAnnual : T;
  hoaMonthly : T;
  maintenancePct : T;
  homeAppreciationPct : T;
  (* Rent (A/C) *)
  monthlyRent : T;
  rentAnnualInflationPct : T;
  (* Storage (C) *)
  includeStorage : bool;
  storageMonthly : T;
  storageAnnualInflationPct : T;
  (* Investment controls *)
  useIVV : bool;
  ivvAnnualReturnPct : T;
  investReturnPct : T;
  returnAdjustPct : T;
  investTaxDragPct : T;
  (* Proceeds invested by scenario *)
  investShareA : T;
  investShareB : T;
  investShareC : T;
  (* Scenario D: keep current home *)
  keepPropertyTaxAnnual : T;
  keepInsuranceAnnual : T;
  keepHoaMonthly : T;
  keepExtraMaintAnnual : T;
  years : Z;
  discountRatePct : T
}.

(** The object pushed on [yearlyData] each year. *)
Module Snapshot.
Record t (T : Type) : Type := mk {
  year : Z;
  netWorthA : T;
  netWorthB : T;
  netWorthC : T;
  netWorthD : T;
  investA : T;
  investB : T;
  investC : T;
  outA : T;
  homeCostsB : T;
  outC : T;
  outD : T;
  remainingPrincipal : T;
  homeValueB : T;
  keepHomeValue : T
}.
End Snapshot.

(** The four scenarios; a result's [key] string starts with the scenario
    letter, which is all that the engine and the ranking use of it. *)
Inductive Scenario : Type := ScenarioA | ScenarioB | ScenarioC | ScenarioD.

(** The object pushed on [results] (the [color] and [stroke] strings are
    presentation only). *)
Module Result.
Record t (T : Type) : Type := mk {
  key : Scenario;
  npv : T;
  terminal : T
}.
End Result.

(** The object [simulate] returns. *)
Module Output.
Record t (T : Type) : Type := mk {
  netProceeds : T;
  yearlyData : list (Snapshot.t T);
  results : list (Result.t T)
}.
End Output.

(** The variables [simulate] mutates in its yearly loop. *)
Record LoopState (T : Type) : Type := mkLoopState {
  remainingPrincipal : T;
  rent : T;
  storage : T;
  homeValueB : T;
  keepHomeValue : T;
  investA : T;
  investB : T;
  investC : T;
  yearlyData : list (Snapshot.t T);
  cashflowsA : list T;
  cashflowsB : list T;
  cashflowsC : list T;
  cashflowsD : list T
}.

(** ** The engine *)

Section Engine.

Context {T : Type} {num : Number T}.
Local Open Scope num_scope.

(** [reduce] with the callback [(acc, x, t) => ...], [t] the array index. *)
Fixpoint reduce_from {A B : Type} (f : B -> A -> nat -> B) (l : list A)
  (t : nat) (acc : B) : B :=
  match l with
  | [] => acc
  | x :: l' => reduce_from f l' (S t) (f acc x t)
  end.

Definition reduce {A B : Type} (f : B -> A -> nat -> B) (l : list A) (init : B) : B :=
  reduce_from f l 0 init.

(** [arr.at(-1)]: the last element, [undefined] on the empty array. *)
Definition at_last {A : Type} (l : list A) : option A :=
  match rev l with
  | [] => None
  | x :: _ => Some x
  end.

(** [arr.at(-1)?.field ?? 0]. *)
Definition last_field_or_zero {A : Type} (l : list A) (field : A -> T) : T :=
  match at_last l with
  | Some x => field x
  | None => lit 0
  end.

(** *** Helpers *)

Definition pct (x : T) : T := x / lit 100.

Definition amortizationPayment (principal annualRatePct : T) (years : Z) : T :=
  let r := pct annualRatePct / lit 12 in
  let n := (years * 12)%Z in
  if r =? lit 0 then principal / lit n
  else (principal * r) / (lit 1 - pow (lit 1 + r) (- n)%Z).

Definition growAnnual (value ratePct : T) (years : Z) : T :=
  value * pow (lit 1 + pct ratePct) years.

Definition npv (cashflows : list T) (discountRatePct : T) : T :=
  let r := pct discountRatePct in
  reduce (fun acc cf t => acc + cf / pow (lit 1 + r) (Z.of_nat t)) cashflows (lit 0).

(** *** Quantities [simulate] fixes before its loop *)

Variable I : Inputs T.

Definition grossSale : T := currentHomeValue I.
Definition sellingCosts : T := grossSale * pct (sellingCostsPct I).
Definition equityBeforeTax : T := grossSale - currentMortgageBalance I - sellingCosts.
Definition capGainsTax : T := max (lit 0) equityBeforeTax * pct (capGainsTaxPct I).
Definition netProceeds : T := equityBeforeTax - capGainsTax.

Definition baseline : T := if useIVV I then ivvAnnualReturnPct I else investReturnPct I.
Definition investGrossRate : T := baseline + returnAdjustPct I.
Definition investNetRate : T := investGrossRate - investTaxDragPct I.

Definition dpB : T := netProceeds * pct (downPaymentFromProceedsPct I).
Definition mortgagePrincipalB : T := max (lit 0) (smallerHomePrice I - dpB).
Definition mortgagePayment : T :=
  amortizationPayment mortgagePrincipalB (mortgageRatePct I) (mortgageYears I).
Definition monthlyMortgageRate : T := pct (mortgageRatePct I) / lit 12.

Definition cashC : T := netProceeds * (lit 1 - pct (investShareC I)).

Definition initialState : LoopState T :=
  {| remainingPrincipal := mortgagePrincipalB;
     rent := monthlyRent I;
     storage := storageMonthly I;
     homeValueB := smallerHomePrice I;
     keepHomeValue := currentHomeValue I;
     investA := netProceeds * pct (investShareA I);
     investB := (netProceeds - dpB) * pct (investShareB I);
     investC := netProceeds * pct (investShareC I);
     yearlyData := [];
     cashflowsA := [lit 0];
     cashflowsB := [- (smallerHomePrice I * pct (smallerHomeClosingPct I)) - dpB];
     cashflowsC := [lit 0];
     cashflowsD := [lit 0] |}.

(** *** The monthly amortization loop

    [for (let m = 0; m < 12; m++) { ...; if (remainingPrincipal <= 1e-6) break; }]
    on the pair [(remainingPrincipal, interestPaidYear)]; [months] is the
    number of iterations left. *)
Fixpoint amortizeMonths (months : nat) (remaining interestPaidYear : T) : T * T :=
  match months with
  | O => (remaining, interestPaidYear)
  | S months' =>
      let interest := remaining * monthlyMortgageRate in
      let principalPaid := min (mortgagePayment - interest) remaining in
      let remaining' := remaining - principalPaid in
      let interestPaidYear' := interestPaidYear + interest in
      if remaining' <=? epsilon then (remaining', interestPaidYear')
      else amortizeMonths months' remaining' interestPaidYear'
  end.

(** *** The body of the yearly loop, for year [y] *)
Definition yearBody (y : Z) (s : LoopState T) : LoopState T :=
  (* Grow investments annually *)
  let investA' := growAnnual (investA s) investNetRate 1 in
  let investB' := growAnnual (investB s) investNetRate 1 in
  let investC' := growAnnual (investC s) investNetRate 1 in
  (* Annual rent & storage (A & C) *)
  let rentAnnual := rent s * lit 12 in
  let storageAnnual := (if includeStorage I then storage s else lit 0) * lit 12 in
  let rent' := rent s * (lit 1 + pct (rentAnnualInflationPct I)) in
  let storage' := storage s * (lit 1 + pct (storageAnnualInflationPct I)) in
  let outA := rentAnnual + storageAnnual in
  (* Scenario B annual costs *)
  let amortized := amortizeMonths 12 (remainingPrincipal s) (lit 0) in
  let remainingPrincipal' := fst amortized in
  let interestPaidYear := snd amortized in
  let propertyTaxB := homeValueB s * pct (propertyTaxPct I) in
  let maintenanceB := homeValueB s * pct (maintenancePct I) in
  let hoaB := hoaMonthly I * lit 12 in
  let homeCostsB :=
    interestPaidYear + propertyTaxB + maintenanceB + insuranceAnnual I + hoaB in
  let homeValueB' := growAnnual (homeValueB s) (homeAppreciationPct I) 1 in
  (* Scenario C outflows (rent + storage) *)
  let outC := rentAnnual + storageAnnual in
  (* Scenario D: keep current home (no mortgage) *)
  let hoaD := keepHoaMonthly I * lit 12 in
  let outD :=
    keepPropertyTaxAnnual I + keepInsuranceAnnual I + hoaD + keepExtraMaintAnnual I in
  let keepHomeValue' := growAnnual (keepHomeValue s) (currentHomeAppreciationPct I) 1 in
  (* Net worth snapshots *)
  let netWorthA := investA' - outA in
  let netWorthB := investB' + homeValueB' - remainingPrincipal' - homeCostsB in
  let netWorthC := investC' + cashC - outC in
  let netWorthD := keepHomeValue' - outD in
  let row :=
    {| Snapshot.year := y;
       Snapshot.netWorthA := netWorthA;
       Snapshot.netWorthB := netWorthB;
       Snapshot.netWorthC := netWorthC;
       Snapshot.netWorthD := netWorthD;
       Snapshot.investA := investA';
       Snapshot.investB := investB';
       Snapshot.investC := investC';
       Snapshot.outA := outA;
       Snapshot.homeCostsB := homeCostsB;
       Snapshot.outC := outC;
       Snapshot.outD := outD;
       Snapshot.remainingPrincipal := max (lit 0) remainingPrincipal';
       Snapshot.homeValueB := homeValueB';
       Snapshot.keepHomeValue := keepHomeValue' |} in
  {| remainingPrincipal := remainingPrincipal';
     rent := rent';
     storage := storage';
     homeValueB := homeValueB';
     keepHomeValue := keepHomeValue';
     investA := investA';
     investB := investB';
     investC := investC';
     yearlyData := yearlyData s ++ [row];
     (* Cash flows for NPV *)
     cashflowsA := cashflowsA s ++ [- outA];
     cashflowsB := cashflowsB s ++ [- homeCostsB];
     cashflowsC := cashflowsC s ++ [- outC];
     cashflowsD := cashflowsD s ++ [- outD] |}.

(** [for (let y = 1; y <= I.years; y++)]: [count] iterations are left and
    the next one is for year [y]. *)
Fixpoint yearLoop (count : nat) (y : Z) (s : LoopState T) : LoopState T :=
  match count with
  | O => s
  | S count' => yearLoop count' (y + 1)%Z (yearBody y s)
  end.

(** The state after the loop: [y] runs over 1, 2, ..., [years]. *)
Definition finalState : LoopState T :=
  yearLoop (Z.to_nat (years I)) 1%Z initialState.

(** *** Terminal values and results *)

Definition terminalA : T :=
  last_field_or_zero (yearlyData finalState) (@Snapshot.investA T).
Definition terminalB : T :=
  last_field_or_zero (yearlyData finalState) (@Snapshot.homeValueB T)
  - last_field_or_zero (yearlyData finalState) (@Snapshot.remainingPrincipal T)
  + last_field_or_zero (yearlyData finalState) (@Snapshot.investB T).
Definition terminalC : T :=
  last_field_or_zero (yearlyData finalState) (@Snapshot.investC T) + cashC.
Definition terminalD : T :=
  last_field_or_zero (yearlyData finalState) (@Snapshot.keepHomeValue T).

Definition npvA : T := npv (cashflowsA finalState ++ [terminalA]) (discountRatePct I).
Definition npvB : T := npv (cashflowsB finalState ++ [terminalB]) (discountRatePct I).
Definition npvC : T := npv (cashflowsC finalState ++ [terminalC]) (discountRatePct I).
Definition npvD : T := npv (cashflowsD finalState ++ [terminalD]) (discountRatePct I).

Definition simulate : Output.t T :=
  {| Output.netProceeds := netProceeds;
     Output.yearlyData := yearlyData finalState;
     Output.results :=
       [ {| Result.key := ScenarioA; Result.npv := npvA; Result.terminal := terminalA |};
         {| Result.key := ScenarioB; Result.npv := npvB; Result.terminal := terminalB |};
         {| Result.key := ScenarioC; Result.npv := npvC; Result.terminal := terminalC |};
         {| Result.key := ScenarioD; Result.npv := npvD; Result.terminal := terminalD |} ] |}.

(** *** Selection of the best scenario

    [[...results].sort((a, b) => b.npv - a.npv)[0]] in [DownsizingAnalyzer].
    [Array.prototype.sort] is a stable sort; it is modelled by the stable
    insertion sort: an element moves behind a later one only when the
    comparator is positive on the pair. *)
Fixpoint insertSorted {A : Type} (cmp : A -> A -> T) (x : A) (l : list A) : list A :=
  match l with
  | [] => [x]
  | e :: l' => if lit 0 <? cmp x e then e :: insertSorted cmp x l' else x :: l
  end.

Fixpoint sort {A : Type} (cmp : A -> A -> T) (l : list A) : list A :=
  match l with
  | [] => []
  | x :: l' => insertSorted cmp x (sort cmp l')
  end.

Definition best (results : list (Result.t T)) : option (Result.t T) :=
  hd_error (sort (fun a b => Result.npv b - Result.npv a) results).

End Engine.

(** ** Instrumentation of the amortization

    The balances the monthly loop goes through are not kept by the source
    (only the year-end balance is).  [monthlyBalances] runs the body of
    [amortizeMonths] and records the balance after every month it
    executes; [balanceTrace] chains the years of the horizon. *)

Section Instrumentation.

Context {T : Type} {num : Number T}.
Local Open Scope num_scope.
Variable I : Inputs T.

Fixpoint monthlyBalances (months : nat) (remaining : T) : list T :=
  match months with
  | O => []
  | S months' =>
      let interest := remaining * monthlyMortgageRate I in
      let principalPaid := min (mortgagePayment I - interest) remaining in
      let remaining' := remaining - principalPaid in
      remaining' ::
        (if remaining' <=? epsilon then [] else monthlyBalances months' remaining')
  end.

(** The balances of the first [count] years, starting from [remaining]. *)
Fixpoint balanceTrace (count : nat) (remaining : T) : list T :=
  match count with
  | O => []
  | S count' =>
      let earlier := balanceTrace count' remaining in
      earlier ++ monthlyBalances 12 (last earlier remaining)
  end.

(** The year-end balances among them, one per year. *)
Fixpoint yearEndBalances (count : nat) (remaining : T) : list T :=
  match count with
  | O => []
  | S count' =>
      let earlier := yearEndBalances count' remaining in
      earlier ++ [fst (amortizeMonths I 12 (last earlier remaining) (lit 0))]
  end.

End Instrumentation.

(** ** The order the ranking relies on

    The comparator of the ranking, [(a, b) => b.npv - a.npv], orders the
    results only if the numbers compare as an order does.  [comparable]
    checks that on the numbers of [xs]: [b - a] is positive exactly when
    [a < b]; [<] is asymmetric; and of three numbers, when the first is not
    below the second nor the second below the third, the first is not below
    the third.  The real numbers always pass; binary64 numbers pass unless
    a NaN is among them. *)
Definition comparable {T : Type} {num : Number T} (xs : list T) : bool :=
  forallb (fun a =>
    forallb (fun b =>
      Bool.eqb (lit 0 <? b - a)%num (a <? b)%num
      && negb ((a <? b)%num && (b <? a)%num)
      && forallb (fun c => (a <? b)%num || (b <? c)%num || negb (a <? c)%num) xs)
      xs) xs.

(** [r], at index [i] of [l], is below no result of [l], and every result
    before it is strictly below it. *)
Definition firstBest {T : Type} {num : Number T}
  (l : list (Result.t T)) (i : nat) (r : Result.t T) : Prop :=
  nth_error l i = Some r /\
  (forall j x, nth_error l j = Some x -> (Result.npv r <? Result.npv x)%num = false) /\
  (forall j x, (j < i)%nat -> nth_error l j = Some x ->
               (Result.npv x <? Result.npv r)%num = true).

(** ** A loan that owes nothing

    What the arithmetic makes of zero in a month of the amortization loop
    when nothing is owed and nothing is paid. *)
Definition zeroLaws {T : Type} (num : Number T) : Prop :=
  (lit 0 - lit 0 = lit 0)%num /\ (lit 0 + lit 0 = lit 0)%num /\
  min (lit 0) (lit 0) = lit 0 /\ max (lit 0) (lit 0) = lit 0 /\
  (lit 0 <=? epsilon)%num = true.

(** The value of the smaller home after [n] years of the loop. *)
Definition homeValueAfter {T : Type} {num : Number T} (I : Inputs T) (n : nat) : T :=
  Nat.iter n (fun value => growAnnual value (homeAppreciationPct I) 1)
           (smallerHomePrice I).

(** ** The specification's formulas, over the reals *)

Local Open Scope R_scope.

(** [Σ_{t < n} cf t / (1 + r)^t]. *)
Fixpoint discounted_sum (cf : nat -> R) (r : R) (n : nat) : R :=
  match n with
  | O => 0
  | S k => discounted_sum cf r k + cf k / (1 + r) ^ k
  end.

(** The cash-flow vector of the specification, by position: the upfront
    transaction at 0, the negated outflow of year [t] at [t] in 1..N, the
    terminal value after them. *)
Definition cashflow_at (upfront : R) (outflows : list R) (terminal : R) (t : nat) : R :=
  match t with
  | O => upfront
  | S i =>
      match nth_error outflows i with
      | Some o => - o
      | None => terminal
      end
  end.

(** The years 1, 2, ..., n. *)
Definition years_upto (n : nat) : list Z := map (fun i => Z.of_nat (S i)) (seq 0 n).

(** What a snapshot shows of scenario D. *)
Definition scenarioD_view {T : Type} (row : Snapshot.t T) : Z * T * T * T :=
  (Snapshot.year row, Snapshot.outD row, Snapshot.netWorthD row,
   Snapshot.keepHomeValue row).

(** What scenario D owns of the loop state. *)
Definition scenarioD_state {T : Type} (s : LoopState T) :
  T * list T * list (Z * T * T * T) :=
  (keepHomeValue s, cashflowsD s, map (@scenarioD_view T) (yearlyData s)).

(** The inputs scenario D reads. *)
Definition agree_on_D {T : Type} (I1 I2 : Inputs T) : Prop :=
  currentHomeValue I1 = currentHomeValue I2 /\
  currentHomeAppreciationPct I1 = currentHomeAppreciationPct I2 /\
  keepPropertyTaxAnnual I1 = keepPropertyTaxAnnual I2 /\
  keepInsuranceAnnual I1 = keepInsuranceAnnual I2 /\
  keepHoaMonthly I1 = keepHoaMonthly I2 /\
  keepExtraMaintAnnual I1 = keepExtraMaintAnnual I2 /\
  years I1 = years I2 /\
  discountRatePct I1 = discountRatePct I2.

(** A sequence of balances that starts below [b], never increases and never
    goes negative. *)
Fixpoint descends_from (b : R) (l : list R) : Prop :=
  match l with
  | [] => True
  | x :: l' => 0 <= x <= b /\ descends_from x l'
  end.

(** [r], at index [i] of [l], has the largest net present value of [l] and
    is the first to have it. *)
Definition first_maximum (l : list (Result.t R)) (i : nat) (r : Result.t R) : Prop :=
  nth_error l i = Some r /\
  (forall j x, nth_error l j = Some x -> Result.npv x <= Result.npv r) /\
  (forall j x, (j < i)%nat -> nth_error l j = Some x -> Result.npv x < Result.npv r).

(** ** Further formulas, over the reals *)

(** The plain sum of a cash-flow array. *)
Definition total (l : list R) : R := fold_right Rplus 0 l.

(** ** Degenerate inputs and non-finite results, on floats *)

Definition rates (I : Inputs float) : list float :=
  [ sellingCostsPct I; capGainsTaxPct I; currentHomeAppreciationPct I;
    smallerHomeClosingPct I; downPaymentFromProceedsPct I; mortgageRatePct I;
    propertyTaxPct I; maintenancePct I; homeAppreciationPct I;
    rentAnnualInflationPct I; storageAnnualInflationPct I;
    ivvAnnualReturnPct I; investReturnPct I; returnAdjustPct I;
    investTaxDragPct I; discountRatePct I ].

(** Zero-length horizon, zero-length mortgage term, or a non-finite rate. *)
Definition degenerate (I : Inputs float) : bool :=
  (years I =? 0)%Z || (mortgageYears I =? 0)%Z || negb (forallb F.finite (rates I)).

Definition finite_result (r : Result.t float) : bool :=
  F.finite (Result.npv r) && F.finite (Result.terminal r).

Definition finite_results (o : Output.t float) : bool :=
  forallb finite_result (Output.results o).

(** ** Parameter sets of ordinary size

    The currency amounts and the percentages of a parameter set. *)
Definition amounts {T : Type} (I : Inputs T) : list T :=
  [ currentHomeValue I; currentMortgageBalance I; smallerHomePrice I;
    insuranceAnnual I; hoaMonthly I; monthlyRent I; storageMonthly I;
    keepPropertyTaxAnnual I; keepInsuranceAnnual I; keepHoaMonthly I;
    keepExtraMaintAnnual I ].

Definition percentages {T : Type} (I : Inputs T) : list T :=
  [ sellingCostsPct I; capGainsTaxPct I; currentHomeAppreciationPct I;
    smallerHomeClosingPct I; downPaymentFromProceedsPct I; mortgageRatePct I;
    propertyTaxPct I; maintenancePct I; homeAppreciationPct I;
    rentAnnualInflationPct I; storageAnnualInflationPct I;
    ivvAnnualReturnPct I; investReturnPct I; returnAdjustPct I;
    investTaxDragPct I; investShareA I; investShareB I; investShareC I;
    discountRatePct I ].

(** Amounts of at most 10^12 and percentages of at most 100 in absolute
    value, a horizon and a loan term of at most a hundred years: sizes at
    which the sums, products and powers of the yearly loop stay far below
    the largest binary64 number. *)
Definition ordinary (I : Inputs R) : Prop :=
  Forall (fun x => - 1000000000000 <= x <= 1000000000000) (amounts I) /\
  Forall (fun p => - 100 <= p <= 100) (percentages I) /\
  (years I <= 100)%Z /\ (mortgageYears I <= 100)%Z.

(** A mortgage rate that is zero, or at least 0.01 %.  Between the two lie
    the rates so small that, on binary64, [1 + r] rounds to 1 and the
    annuity denominator [1 - (1 + r)^(-n)] to zero. *)
Definition zeroOrPricedRate (ratePct : R) : Prop :=
  ratePct = 0 \/ 1 / 100 <= ratePct.

(** ** Concrete parameter sets

    [defaultInputs] is the initial state of [DownsizingAnalyzer]
    ([useState<Inputs>({...})]); the others change the fields named. *)

Section Samples.

Context {T : Type} {num : Number T}.
Local Open Scope num_scope.

Definition inputsWith (downPaymentPct : T) (term : Z) (withStorage : bool)
  (shareA shareC : T) (horizon : Z) : Inputs T :=
  {| currentHomeValue := lit 1300000;
     currentMortgageBalance := lit 0;
     sellingCostsPct := lit 6;
     capGainsTaxPct := lit 0;
     currentHomeAppreciationPct := lit 3;
     smallerHomePrice := lit 700000;
     smallerHomeClosingPct := lit 25 / lit 10;
     downPaymentFromProceedsPct := downPaymentPct;
     mortgageRatePct := lit 65 / lit 10;
     mortgageYears := term;
     propertyTaxPct := lit 21 / lit 10;
     insuranceAnnual := lit 2500;
     hoaMonthly := lit 250;
     maintenancePct := lit 1;
     homeAppreciationPct := lit 3;
     monthlyRent := lit 4500;
     rentAnnualInflationPct := lit 3;
     includeStorage := withStorage;
     storageMonthly := lit 350;
     storageAnnualInflationPct := lit 3;
     useIVV := true;
     ivvAnnualReturnPct := lit 8;
     investReturnPct := lit 65 / lit 10;
     returnAdjustPct := lit 0;
     investTaxDragPct := lit 5 / lit 10;
     investShareA := shareA;
     investShareB := lit 50;
     investShareC := shareC;
     keepPropertyTaxAnnual := lit 13500;
     keepInsuranceAnnual := lit 7000;
     keepHoaMonthly := lit 180;
     keepExtraMaintAnnual := lit 2500;
     years := horizon;
     discountRatePct := lit 55 / lit 10 |}.

Definition defaultInputs : Inputs T :=
  inputsWith (lit 50) 30 true (lit 100) (lit 50) 15.

(** No storage, and the same invested share, 50%, in scenarios A and C. *)
Definition equalShareInputs : Inputs T :=
  inputsWith (lit 50) 30 false (lit 50) (lit 50) 15.

(** A loan of zero years, for a home fully paid from the proceeds. *)
Definition zeroTermInputs : Inputs T :=
  inputsWith (lit 100) 0 true (lit 100) (lit 50) 15.

(** The defaults over a horizon of no year. *)
Definition zeroHorizonInputs : Inputs T :=
  inputsWith (lit 50) 30 true (lit 100) (lit 50) 0.

(** A loan of zero years for a home fully paid from the proceeds, and
    nothing invested in scenario A. *)
Definition unrankedInputs : Inputs T :=
  inputsWith (lit 100) 0 true (lit 0) (lit 50) 15.

(** The whole proceeds offered as down payment: more than the price. *)
Definition cashPurchaseInputs : Inputs T :=
  inputsWith (lit 100) 30 true (lit 100) (lit 50) 15.

End Samples.

(** ** Parameter sets that differ in chosen fields *)

(** [{...I, investReturnPct: v}]. *)
Definition withInvestReturnPct {T : Type} (v : T) (I : Inputs T) : Inputs T :=
  {| currentHomeValue := currentHomeValue I;
     currentMortgageBalance := currentMortgageBalance I;
     sellingCostsPct := sellingCostsPct I;
     capGainsTaxPct := capGainsTaxPct I;
     currentHomeAppreciationPct := currentHomeAppreciationPct I;
     smallerHomePrice := smallerHomePrice I;
     smallerHomeClosingPct := smallerHomeClosingPct I;
     downPaymentFromProceedsPct := downPaymentFromProceedsPct I;
     mortgageRatePct := mortgageRatePct I;
     mortgageYears := mortgageYears I;
     propertyTaxPct := propertyTaxPct I;
     insuranceAnnual := insuranceAnnual I;
     hoaMonthly := hoaMonthly I;
     maintenancePct := maintenancePct I;
     homeAppreciationPct := homeAppreciationPct I;
     monthlyRent := monthlyRent I;
     rentAnnualInflationPct := rentAnnualInflationPct I;
     includeStorage := includeStorage I;
     storageMonthly := storageMonthly I;
     storageAnnualInflationPct := storageAnnualInflationPct I;
     useIVV := useIVV I;
     ivvAnnualReturnPct := ivvAnnualReturnPct I;
     investReturnPct := v;
     returnAdjustPct := returnAdjustPct I;
     investTaxDragPct := investTaxDragPct I;
     investShareA := investShareA I;
     investShareB := investShareB I;
     investShareC := investShareC I;
     keepPropertyTaxAnnual := keepPropertyTaxAnnual I;
     keepInsuranceAnnual := keepInsuranceAnnual I;
     keepHoaMonthly := keepHoaMonthly I;
     keepExtraMaintAnnual := keepExtraMaintAnnual I;
     years := years I;
     discountRatePct := discountRatePct I |}.

(** [{...I, ivvAnnualReturnPct: v}]. *)
Definition withIvvAnnualReturnPct {T : Type} (v : T) (I : Inputs T) : Inputs T :=
  {| currentHomeValue := currentHomeValue I;
     currentMortgageBalance := currentMortgageBalance I;
     sellingCostsPct := sellingCostsPct I;
     capGainsTaxPct := capGainsTaxPct I;
     currentHomeAppreciationPct := currentHomeAppreciationPct I;
     smallerHomePrice := smallerHomePrice I;
     smallerHomeClosingPct := smallerHomeClosingPct I;
     downPaymentFromProceedsPct := downPaymentFromProceedsPct I;
     mortgageRatePct := mortgageRatePct I;
     mortgageYears := mortgageYears I;
     propertyTaxPct := propertyTaxPct I;
     insuranceAnnual := insuranceAnnual I;
     hoaMonthly := hoaMonthly I;
     maintenancePct := maintenancePct I;
     homeAppreciationPct := homeAppreciationPct I;
     monthlyRent := monthlyRent I;
     rentAnnualInflationPct := rentAnnualInflationPct I;
     includeStorage := includeStorage I;
     storageMonthly := storageMonthly I;
     storageAnnualInflationPct := storageAnnualInflationPct I;
     useIVV := useIVV I;
     ivvAnnualReturnPct := v;
     investReturnPct := investReturnPct I;
     returnAdjustPct := returnAdjustPct I;
     investTaxDragPct := investTaxDragPct I;
     investShareA := investShareA I;
     investShareB := investShareB I;
     investShareC := investShareC I;
     keepPropertyTaxAnnual := keepPropertyTaxAnnual I;
     keepInsuranceAnnual := keepInsuranceAnnual I;
     keepHoaMonthly := keepHoaMonthly I;
     keepExtraMaintAnnual := keepExtraMaintAnnual I;
     years := years I;
     discountRatePct := discountRatePct I |}.

(** [{...I, storageMonthly: monthly, storageAnnualInflationPct: inflation}]. *)
Definition withStorage {T : Type} (monthly inflation : T) (I : Inputs T) : Inputs T :=
  {| currentHomeValue := currentHomeValue I;
     currentMortgageBalance := currentMortgageBalance I;
     sellingCostsPct := sellingCostsPct I;
     capGainsTaxPct := capGainsTaxPct I;
     currentHomeAppreciationPct := currentHomeAppreciationPct I;
     smallerHomePrice := smallerHomePrice I;
     smallerHomeClosingPct := smallerHomeClosingPct I;
     downPaymentFromProceedsPct := downPaymentFromProceedsPct I;
     mortgageRatePct := mortgageRatePct I;
     mortgageYears := mortgageYears I;
     propertyTaxPct := propertyTaxPct I;
     insuranceAnnual := insuranceAnnual I;
     hoaMonthly := hoaMonthly I;
     maintenancePct := maintenancePct I;
     homeAppreciationPct := homeAppreciationPct I;
     monthlyRent := monthlyRent I;
     rentAnnualInflationPct := rentAnnualInflationPct I;
     includeStorage := includeStorage I;
     storageMonthly := monthly;
     storageAnnualInflationPct := inflation;
     useIVV := useIVV I;
     ivvAnnualReturnPct := ivvAnnualReturnPct I;
     investReturnPct := investReturnPct I;
     returnAdjustPct := returnAdjustPct I;
     investTaxDragPct := investTaxDragPct I;
     investShareA := investShareA I;
     investShareB := investShareB I;
     investShareC := investShareC I;
     keepPropertyTaxAnnual := keepPropertyTaxAnnual I;
     keepInsuranceAnnual := keepInsuranceAnnual I;
     keepHoaMonthly := keepHoaMonthly I;
     keepExtraMaintAnnual := keepExtraMaintAnnual I;
     years := years I;
     discountRatePct := discountRatePct I |}.

(** [{...I, smallerHomePrice: price, downPaymentFromProceedsPct: downPaymentPct,
      mortgageRatePct: ratePct, mortgageYears: term}]. *)
Definition withLoan {T : Type} (price downPaymentPct ratePct : T) (term : Z)
  (I : Inputs T) : Inputs T :=
  {| currentHomeValue := currentHomeValue I;
     currentMortgageBalance := currentMortgageBalance I;
     sellingCostsPct := sellingCostsPct I;
     capGainsTaxPct := capGainsTaxPct I;
     currentHomeAppreciationPct := currentHomeAppreciationPct I;
     smallerHomePrice := price;
     smallerHomeClosingPct := smallerHomeClosingPct I;
     downPaymentFromProceedsPct := downPaymentPct;
     mortgageRatePct := ratePct;
     mortgageYears := term;
     propertyTaxPct := propertyTaxPct I;
     insuranceAnnual := insuranceAnnual I;
     hoaMonthly := hoaMonthly I;
     maintenancePct := maintenancePct I;
     homeAppreciationPct := homeAppreciationPct I;
     monthlyRent := monthlyRent I;
     rentAnnualInflationPct := rentAnnualInflationPct I;
     includeStorage := includeStorage I;
     storageMonthly := storageMonthly I;
     storageAnnualInflationPct := storageAnnualInflationPct I;
     useIVV := useIVV I;
     ivvAnnualReturnPct := ivvAnnualReturnPct I;
     investReturnPct := investReturnPct I;
     returnAdjustPct := returnAdjustPct I;
     investTaxDragPct := investTaxDragPct I;
     investShareA := investShareA I;
     investShareB := investShareB I;
     investShareC := investShareC I;
     keepPropertyTaxAnnual := keepPropertyTaxAnnual I;
     keepInsuranceAnnual := keepInsuranceAnnual I;
     keepHoaMonthly := keepHoaMonthly I;
     keepExtraMaintAnnual := keepExtraMaintAnnual I;
     years := years I;
     discountRatePct := discountRatePct I |}.

Section LoanSamples.

Context {T : Type} {num : Number T}.
Local Open Scope num_scope.

(** The literal [1e-15]. *)
Definition tinyRatePct : T := lit 1 / lit 1000000000000000.

(** A home fully paid from the proceeds, at a mortgage rate of 1e-15 %. *)
Definition tinyRateInputs : Inputs T :=
  withLoan (lit 700000) (lit 100) tinyRatePct 30 defaultInputs.

(** A price of 1e308, nothing paid down, at a mortgage rate of 10000 %. *)
Definition hugeLoanInputs : Inputs T :=
  withLoan (pow (lit 10) 308) (lit 0) (lit 10000) 30 defaultInputs.

End LoanSamples.

(** The loop state with the storage figure blanked. *)
Definition withoutStorage {T : Type} (blank : T) (s : LoopState T) : LoopState T :=
  {| remainingPrincipal := remainingPrincipal s;
     rent := rent s;
     storage := blank;
     homeValueB := homeValueB s;
     keepHomeValue := keepHomeValue s;
     investA := investA s;
     investB := investB s;
     investC := investC s;
     yearlyData := yearlyData s;
     cashflowsA := cashflowsA s;
     cashflowsB := cashflowsB s;
     cashflowsC := cashflowsC s;
     cashflowsD := cashflowsD s |}.

(** What a snapshot shows of the two rent scenarios, A and C. *)
Definition rentScenarios_view {T : Type} (row : Snapshot.t T) : Z * (T * T * T) * (T * T * T) :=
  (Snapshot.year row,
   (Snapshot.investA row, Snapshot.outA row, Snapshot.netWorthA row),
   (Snapshot.investC row, Snapshot.outC row, Snapshot.netWorthC row)).

(** What the rent scenarios own of the loop state. *)
Definition rentScenarios_state {T : Type} (s : LoopState T) :
  (T * T) * (T * T) * (list T * list T) * list (Z * (T * T * T) * (T * T * T)) :=
  ((rent s, storage s), (investA s, investC s), (cashflowsA s, cashflowsC s),
   map (@rentScenarios_view T) (yearlyData s)).

(** The inputs the rent scenarios read: the sale, the rent and storage,
    the return assumptions, their two invested shares, the horizon and the
    discount rate. *)
Definition agree_on_rent_scenarios {T : Type} (I1 I2 : Inputs T) : Prop :=
  (currentHomeValue I1 = currentHomeValue I2 /\
   currentMortgageBalance I1 = currentMortgageBalance I2 /\
   sellingCostsPct I1 = sellingCostsPct I2 /\
   capGainsTaxPct I1 = capGainsTaxPct I2) /\
  (monthlyRent I1 = monthlyRent I2 /\
   rentAnnualInflationPct I1 = rentAnnualInflationPct I2 /\
   includeStorage I1 = includeStorage I2 /\
   storageMonthly I1 = storageMonthly I2 /\
   storageAnnualInflationPct I1 = storageAnnualInflationPct I2) /\
  (useIVV I1 = useIVV I2 /\
   ivvAnnualReturnPct I1 = ivvAnnualReturnPct I2 /\
   investReturnPct I1 = investReturnPct I2 /\
   returnAdjustPct I1 = returnAdjustPct I2 /\
   investTaxDragPct I1 = investTaxDragPct I2) /\
  (investShareA I1 = investShareA I2 /\
   investShareC I1 = investShareC I2 /\
   years I1 = years I2 /\
   discountRatePct I1 = discountRatePct I2).

(** [r.key === best?.key], the highlight of a scenario card. *)
Definition sameKey (a b : Scenario) : bool :=
  match a, b with
  | ScenarioA, ScenarioA | ScenarioB, ScenarioB
  | ScenarioC, ScenarioC | ScenarioD, ScenarioD => true
  | _, _ => false
  end.

(** The cards of [DownsizingAnalyzer],
    [results.map(r => <ScenarioCard ... highlight={r.key === best?.key} />)]:
    the highlight flag of each card, in the order of [results]. *)
Definition highlights {T : Type} {num : Number T} (results : list (Result.t T)) :
  list bool :=
  map (fun r =>
         match best results with
         | Some b => sameKey (Result.key r) (Result.key b)
         | None => false
         end) results.

(** ** Facts that hold over every [Number] *)

Section EngineFacts.

Context {T : Type} {num : Number T}.
Local Open Scope num_scope.
Local Close Scope R_scope.

Lemma reduce_from_snoc {A B : Type} (f : B -> A -> nat -> B) (l : list A) (x : A) :
  forall t acc,
    reduce_from f (l ++ [x]) t acc = f (reduce_from f l t acc) x (t + length l)%nat.
Proof.
  induction l as [|a l IH]; intros t acc; cbn.
  - now rewrite Nat.add_0_r.
  - rewrite IH. now rewrite Nat.add_succ_r.
Qed.

(** Appending an entry adds its discounted value, at the position it takes. *)
Lemma npv_snoc (l : list T) (x d : T) :
  npv (l ++ [x]) d = npv l d + x / pow (lit 1 + pct d) (Z.of_nat (length l)).
Proof.
  unfold npv, reduce. now rewrite reduce_from_snoc.
Qed.

Lemma at_last_snoc {A : Type} (l : list A) (x : A) : at_last (l ++ [x]) = Some x.
Proof.
  unfold at_last. now rewrite rev_app_distr.
Qed.

Lemma last_field_map {A B : Type} (g : A -> B) (l : list A) (field : B -> T) :
  last_field_or_zero (map g l) field = last_field_or_zero l (fun a => field (g a)).
Proof.
  unfold last_field_or_zero, at_last. rewrite <- map_rev.
  now destruct (rev l).
Qed.

(** The two branches of [amortizationPayment]. *)
Lemma amortizationPayment_branches (principal annualRatePct : T) (years : Z) :
  let r := pct annualRatePct / lit 12 in
  let n := (years * 12)%Z in
  ((r =? lit 0) = true ->
   amortizationPayment principal annualRatePct years = principal / lit n) /\
  ((r =? lit 0) = false ->
   amortizationPayment principal annualRatePct years
   = (principal * r) / (lit 1 - pow (lit 1 + r) (- n)%Z)).
Proof.
  intros r n. unfold amortizationPayment. fold r. fold n.
  split; intros E; now rewrite E.
Qed.

Variable I : Inputs T.

(** The invariant rule of the yearly loop: [P n s] says that [s] is the
    state after [n] years. *)
Lemma yearLoop_invariant (P : nat -> LoopState T -> Prop) :
  (forall n s, P n s -> P (S n) (yearBody I (Z.of_nat (S n)) s)) ->
  forall count n s,
    P n s -> P (n + count)%nat (yearLoop I count (Z.of_nat (S n)) s).
Proof.
  intros Hstep count. induction count as [|count IH]; intros n s Hs; cbn [yearLoop].
  - now rewrite Nat.add_0_r.
  - replace (n + S count)%nat with (S n + count)%nat by lia.
    replace (Z.of_nat (S n) + 1)%Z with (Z.of_nat (S (S n))) by lia.
    apply IH. now apply Hstep.
Qed.

Lemma finalState_invariant (P : nat -> LoopState T -> Prop) :
  P O (initialState I) ->
  (forall n s, P n s -> P (S n) (yearBody I (Z.of_nat (S n)) s)) ->
  P (Z.to_nat (years I)) (finalState I).
Proof.
  intros H0 Hstep. unfold finalState.
  apply (yearLoop_invariant P Hstep (Z.to_nat (years I)) O (initialState I) H0).
Qed.

(** The snapshots are those of the years 1, 2, ..., N. *)
Lemma yearlyData_years :
  map (@Snapshot.year T) (yearlyData (finalState I)) = years_upto (Z.to_nat (years I)).
Proof.
  apply (finalState_invariant
           (fun n s => map (@Snapshot.year T) (yearlyData s) = years_upto n)).
  - reflexivity.
  - intros n s IH. cbn [yearBody yearlyData]. rewrite map_app, IH. cbn [map Snapshot.year].
    unfold years_upto. now rewrite seq_S, map_app.
Qed.

Lemma yearlyData_length :
  length (yearlyData (finalState I)) = Z.to_nat (years I).
Proof.
  rewrite <- (length_map (@Snapshot.year T)), yearlyData_years.
  unfold years_upto. now rewrite length_map, length_seq.
Qed.

(** With a horizon of no year the loop body never runs. *)
Lemma finalState_zero_horizon :
  (years I <= 0)%Z -> finalState I = initialState I.
Proof.
  intros H. unfold finalState. now replace (Z.to_nat (years I)) with O by lia.
Qed.

(** The cash-flow arrays: the upfront entry, then one negated outflow per
    snapshot, in year order. *)
Lemma cashflows_shape :
  let rows := yearlyData (finalState I) in
  cashflowsA (finalState I) = lit 0 :: map (fun row => - Snapshot.outA row) rows /\
  cashflowsB (finalState I)
  = (- (smallerHomePrice I * pct (smallerHomeClosingPct I)) - dpB I)
      :: map (fun row => - Snapshot.homeCostsB row) rows /\
  cashflowsC (finalState I) = lit 0 :: map (fun row => - Snapshot.outC row) rows /\
  cashflowsD (finalState I) = lit 0 :: map (fun row => - Snapshot.outD row) rows.
Proof.
  apply (finalState_invariant
    (fun _ s =>
       cashflowsA s = lit 0 :: map (fun row => - Snapshot.outA row) (yearlyData s) /\
       cashflowsB s
       = (- (smallerHomePrice I * pct (smallerHomeClosingPct I)) - dpB I)
           :: map (fun row => - Snapshot.homeCostsB row) (yearlyData s) /\
       cashflowsC s = lit 0 :: map (fun row => - Snapshot.outC row) (yearlyData s) /\
       cashflowsD s = lit 0 :: map (fun row => - Snapshot.outD row) (yearlyData s))).
  - repeat split.
  - intros n s (HA & HB & HC & HD).
    cbn [yearBody cashflowsA cashflowsB cashflowsC cashflowsD yearlyData].
    rewrite HA, HB, HC, HD, !map_app. repeat split.
Qed.

(** Scenarios A and C record the same outflow every year. *)
Lemma outC_outA :
  map (@Snapshot.outC T) (yearlyData (finalState I))
  = map (@Snapshot.outA T) (yearlyData (finalState I)).
Proof.
  apply (finalState_invariant
    (fun _ s => map (@Snapshot.outC T) (yearlyData s)
                = map (@Snapshot.outA T) (yearlyData s))).
  - reflexivity.
  - intros n s IH. cbn [yearBody yearlyData]. now rewrite !map_app, IH.
Qed.

(** *** The amortization and its instrumentation *)

Lemma last_cons {A : Type} (l : list A) :
  forall x d, last (x :: l) d = last l x.
Proof.
  induction l as [|y l IH]; intros x d; [reflexivity|].
  change (last (x :: y :: l) d) with (last (y :: l) d).
  now rewrite (IH y d), (IH y x).
Qed.

Lemma last_chain {A : Type} (l1 l2 : list A) :
  forall d, last (l1 ++ l2) d = last l2 (last l1 d).
Proof.
  induction l1 as [|x l1 IH]; intros d; [reflexivity|].
  now rewrite <- app_comm_cons, !last_cons, IH.
Qed.

(** The balance the monthly loop ends the year with is the last one it
    went through. *)
Lemma amortizeMonths_balance (months : nat) :
  forall remaining interestPaidYear,
    fst (amortizeMonths I months remaining interestPaidYear)
    = last (monthlyBalances I months remaining) remaining.
Proof.
  induction months as [|months IH]; intros remaining interestPaidYear; [reflexivity|].
  cbn [amortizeMonths monthlyBalances]. rewrite last_cons.
  destruct (_ <=? epsilon); [reflexivity|]. apply IH.
Qed.

(** The balance of the loop state and the balances of the snapshots, read
    off the instrumentation. *)
Lemma remainingPrincipal_trace :
  let N := Z.to_nat (years I) in
  let P := mortgagePrincipalB I in
  remainingPrincipal (finalState I) = last (balanceTrace I N P) P /\
  remainingPrincipal (finalState I) = last (yearEndBalances I N P) P /\
  map (@Snapshot.remainingPrincipal T) (yearlyData (finalState I))
  = map (max (lit 0)) (yearEndBalances I N P).
Proof.
  intros N P. subst N.
  apply (finalState_invariant
    (fun n s =>
       remainingPrincipal s = last (balanceTrace I n P) P /\
       remainingPrincipal s = last (yearEndBalances I n P) P /\
       map (@Snapshot.remainingPrincipal T) (yearlyData s)
       = map (max (lit 0)) (yearEndBalances I n P))).
  - repeat split.
  - intros n s (Ht & He & Hm).
    cbn [yearBody remainingPrincipal yearlyData balanceTrace yearEndBalances].
    rewrite last_chain, last_last, !map_app, Hm, <- Ht, <- He.
    repeat split. apply amortizeMonths_balance.
Qed.

End EngineFacts.

(** ** The ranking, over every [Number] *)

Section Ranking.

Context {T : Type} {num : Number T}.
Local Open Scope num_scope.
Local Close Scope R_scope.

Lemma comparable_spec (xs : list T) :
  comparable xs = true ->
  forall a b, In a xs -> In b xs ->
    (lit 0 <? b - a) = (a <? b) /\
    ((a <? b) = true -> (b <? a) = false) /\
    (forall c, In c xs -> (a <? b) = false -> (b <? c) = false -> (a <? c) = false).
Proof.
  unfold comparable. intros H a b Ha Hb.
  rewrite forallb_forall in H. specialize (H a Ha).
  rewrite forallb_forall in H. specialize (H b Hb).
  apply andb_prop in H as [H H3]. apply andb_prop in H as [H1 H2].
  split; [now apply eqb_prop|]. split.
  - intros E. rewrite E in H2. now destruct (b <? a).
  - intros c Hc E1 E2. rewrite forallb_forall in H3. specialize (H3 c Hc).
    rewrite E1, E2 in H3. now destruct (a <? c).
Qed.

(** The head of the sorted array, one element at a time. *)
Lemma best_step (x : Result.t T) (l : list (Result.t T)) :
  best (x :: l)
  = match best l with
    | None => Some x
    | Some e => if lit 0 <? Result.npv e - Result.npv x then Some e else Some x
    end.
Proof.
  unfold best. cbn [sort].
  destruct (sort _ l) as [|e rest]; [reflexivity|].
  cbn [insertSorted hd_error]. now destruct (lit 0 <? _).
Qed.

Lemma firstBest_unique (l : list (Result.t T)) (i i' : nat) (r r' : Result.t T) :
  firstBest l i r -> firstBest l i' r' -> i = i' /\ r = r'.
Proof.
  intros (Hi & Hmax & Hfirst) (Hi' & Hmax' & Hfirst').
  assert (E : i = i').
  { destruct (Nat.lt_trichotomy i i') as [Hlt|[Heq|Hgt]]; [|exact Heq|].
    - pose proof (Hfirst' _ _ Hlt Hi). pose proof (Hmax _ _ Hi'). congruence.
    - pose proof (Hfirst _ _ Hgt Hi'). pose proof (Hmax' _ _ Hi). congruence. }
  split; [exact E|]. subst i'. congruence.
Qed.

(** On numbers that compare as an order, the head of the sorted results is
    the first of the results that none exceeds. *)
Lemma best_firstBest (l : list (Result.t T)) :
  comparable (map (@Result.npv T) l) = true -> l <> [] ->
  exists i r, best l = Some r /\ firstBest l i r.
Proof.
  intros Hc. pose proof (comparable_spec _ Hc) as Hord. clear Hc.
  assert (Hin : forall j y, nth_error l j = Some y ->
                            In (Result.npv y) (map (@Result.npv T) l)).
  { intros j y Hy. apply in_map. exact (nth_error_In _ _ Hy). }
  revert Hord Hin. generalize (map (@Result.npv T) l) as xs. intros xs Hord.
  induction l as [|x l IH]; intros Hin Hne; [congruence|]. clear Hne.
  assert (Hx : In (Result.npv x) xs) by exact (Hin O x eq_refl).
  assert (Hin' : forall j y, nth_error l j = Some y -> In (Result.npv y) xs).
  { intros j y Hy. exact (Hin (S j) y Hy). }
  assert (Hirr : (Result.npv x <? Result.npv x) = false).
  { destruct (Hord _ _ Hx Hx) as (_ & Hasym & _).
    destruct (Result.npv x <? Result.npv x) eqn:E; [|reflexivity]. now apply Hasym. }
  rewrite best_step. destruct l as [|x' l'].
  - exists O, x. split; [reflexivity|]. repeat split.
    + intros [|j] y Hy; cbn in Hy; [injection Hy as <-; exact Hirr|].
      destruct j; discriminate.
    + intros j y Hj. lia.
  - destruct (IH Hin' ltac:(discriminate)) as (i & e & Hbest & Hi & Hmax & Hfirst).
    assert (He : In (Result.npv e) xs) by exact (Hin' _ _ Hi).
    destruct (Hord _ _ Hx He) as (Hsub & Hasym & Htrans).
    rewrite Hbest, Hsub. destruct (Result.npv x <? Result.npv e) eqn:E.
    + exists (S i), e. split; [reflexivity|]. repeat split.
      * exact Hi.
      * intros [|j] y Hy; cbn [nth_error] in Hy; [injection Hy as <-; now apply Hasym|].
        exact (Hmax _ _ Hy).
      * intros [|j] y Hj Hy; cbn [nth_error] in Hy; [injection Hy as <-; exact E|].
        apply (Hfirst j); [lia|exact Hy].
    + exists O, x. split; [reflexivity|]. repeat split.
      * intros [|j] y Hy; cbn [nth_error] in Hy; [injection Hy as <-; exact Hirr|].
        apply Htrans; [exact (Hin' _ _ Hy)|reflexivity|exact (Hmax _ _ Hy)].
      * intros j y Hj. lia.
Qed.

End Ranking.

(** ** Scenario D reads only its own inputs *)

Section ScenarioD.

Context {T : Type} {num : Number T}.
Local Open Scope num_scope.
Local Close Scope R_scope.

Variables I1 I2 : Inputs T.
Hypothesis agree : agree_on_D I1 I2.

Lemma yearBody_scenarioD (y : Z) (s1 s2 : LoopState T) :
  scenarioD_state s1 = scenarioD_state s2 -> scenarioD_state (yearBody I1 y s1) = scenarioD_state (yearBody I2 y s2).
Proof.
  destruct agree as (_ & Happ & Htax & Hins & Hhoa & Hmaint & _ & _).
  unfold scenarioD_state. intros E. injection E as Ek Ec Er.
  cbn [yearBody keepHomeValue cashflowsD yearlyData].
  rewrite !map_app. cbn [map scenarioD_view Snapshot.year Snapshot.outD
                           Snapshot.netWorthD Snapshot.keepHomeValue].
  now rewrite Ek, Ec, Er, Happ, Htax, Hins, Hhoa, Hmaint.
Qed.

Lemma yearLoop_scenarioD (count : nat) :
  forall y s1 s2,
    scenarioD_state s1 = scenarioD_state s2 -> scenarioD_state (yearLoop I1 count y s1) = scenarioD_state (yearLoop I2 count y s2).
Proof.
  induction count as [|count IH]; intros y s1 s2 E; [exact E|].
  cbn [yearLoop]. apply IH. now apply yearBody_scenarioD.
Qed.

Lemma finalState_scenarioD : scenarioD_state (finalState I1) = scenarioD_state (finalState I2).
Proof.
  destruct agree as (Hvalue & _ & _ & _ & _ & _ & Hyears & _).
  unfold finalState. rewrite Hyears. apply yearLoop_scenarioD.
  unfold scenarioD_state. cbn [initialState keepHomeValue cashflowsD yearlyData map].
  now rewrite Hvalue.
Qed.

Lemma scenarioD_rows :
  map (@scenarioD_view T) (yearlyData (finalState I1))
  = map (@scenarioD_view T) (yearlyData (finalState I2)).
Proof.
  pose proof finalState_scenarioD as E. unfold scenarioD_state in E. now injection E.
Qed.

Lemma scenarioD_terminal : terminalD I1 = terminalD I2.
Proof.
  assert (E : forall I, terminalD I
                   = last_field_or_zero (map (@scenarioD_view T) (yearlyData (finalState I)))
                       (fun v => snd v)).
  { intros I. symmetry.
    exact (last_field_map (@scenarioD_view T) (yearlyData (finalState I)) (fun v => snd v)). }
  now rewrite !E, scenarioD_rows.
Qed.

Lemma scenarioD_npv : npvD I1 = npvD I2.
Proof.
  pose proof finalState_scenarioD as E. unfold scenarioD_state in E. injection E as _ Ec _.
  destruct agree as (_ & _ & _ & _ & _ & _ & _ & Hrate).
  unfold npvD. now rewrite Ec, scenarioD_terminal, Hrate.
Qed.

End ScenarioD.

(** ** The engine over the reals *)

Section RealEngine.

Local Open Scope R_scope.

(** Reads the interface at [R_Number]. *)
Ltac real_ops :=
  cbv beta iota zeta delta
    [lit epsilon add sub mul div neg max min pow eqb leb ltb R_Number] in *.

Lemma Reqb_true_iff (x y : R) : Reqb x y = true <-> x = y.
Proof. unfold Reqb. destruct (Req_dec_T x y); split; congruence. Qed.

Lemma Rltb_true_iff (x y : R) : Rltb x y = true <-> x < y.
Proof. unfold Rltb. destruct (Rlt_dec x y); split; intros; congruence || tauto. Qed.

Lemma pct_R (x : R) : pct x = x / 100.
Proof. reflexivity. Qed.

Lemma growAnnual_R (v p : R) : growAnnual v p 1 = v * (1 + p / 100).
Proof.
  unfold growAnnual, pct. real_ops. now rewrite powerRZ_1.
Qed.

Lemma nth_error_map_seq {A : Type} (f : A -> R) (g : nat -> R) (l : list A) (n i : nat) (x : A) :
  map f l = map g (seq 0 n) -> nth_error l i = Some x -> f x = g i.
Proof.
  intros Hmap Hx.
  assert (Hi : (i < n)%nat).
  { apply (f_equal (@length R)) in Hmap. rewrite !length_map, length_seq in Hmap.
    rewrite <- Hmap. apply nth_error_Some. congruence. }
  apply (map_nth_error f) in Hx. rewrite Hmap, nth_error_map, nth_error_seq in Hx.
  apply Nat.ltb_lt in Hi. rewrite Hi in Hx. cbn in Hx. congruence.
Qed.

(** *** Net present value as a discounted sum *)

Lemma discounted_sum_ext (f g : nat -> R) (r : R) (n : nat) :
  (forall t, (t < n)%nat -> f t = g t) ->
  discounted_sum f r n = discounted_sum g r n.
Proof.
  induction n as [|n IH]; intros H; cbn [discounted_sum]; [reflexivity|].
  rewrite IH, (H n) by (intros; try apply H; lia). reflexivity.
Qed.

Lemma npv_discounted_sum (l : list R) (d : R) :
  npv l d = discounted_sum (fun t => nth t l 0) (d / 100) (length l).
Proof.
  induction l as [|x l IH] using rev_ind.
  - reflexivity.
  - rewrite npv_snoc, IH, length_app, Nat.add_1_r. cbn [discounted_sum].
    rewrite (discounted_sum_ext (fun t => nth t (l ++ [x]) 0) (fun t => nth t l 0)).
    + rewrite app_nth2, Nat.sub_diag by lia. cbn [nth].
      rewrite pct_R. real_ops. now rewrite <- pow_powerRZ.
    + intros t Ht. now rewrite app_nth1.
Qed.

Lemma cashflow_vector_nth (upfront terminal : R) (outflows : list R) (t : nat) :
  (t <= S (length outflows))%nat ->
  nth t ((upfront :: map Ropp outflows) ++ [terminal]) 0
  = cashflow_at upfront outflows terminal t.
Proof.
  intros Ht. destruct t as [|i]; [reflexivity|].
  cbn [app nth cashflow_at].
  destruct (nth_error outflows i) as [o|] eqn:E.
  - assert (Hi : (i < length outflows)%nat) by (apply nth_error_Some; congruence).
    rewrite app_nth1 by now rewrite length_map.
    rewrite (nth_indep _ 0 (- 0)) by now rewrite length_map.
    rewrite map_nth. f_equal. now apply nth_error_nth.
  - apply nth_error_None in E.
    rewrite app_nth2 by (rewrite length_map; lia).
    rewrite length_map. replace (i - length outflows)%nat with O by lia. reflexivity.
Qed.

(** A cash-flow array of the engine, closed by its terminal value, has the
    net present value of the specification's vector; the terminal value is
    its last term, at position N + 1. *)
Lemma npv_of_vector (cashflows : list R) (upfront terminal d : R) (outflows : list R) :
  cashflows = upfront :: map Ropp outflows ->
  let n := length outflows in
  let cf := cashflow_at upfront outflows terminal in
  npv (cashflows ++ [terminal]) d = discounted_sum cf (d / 100) (n + 2) /\
  discounted_sum cf (d / 100) (n + 2)
  = discounted_sum cf (d / 100) (n + 1) + terminal / (1 + d / 100) ^ (n + 1).
Proof.
  intros -> n cf. split.
  - rewrite npv_discounted_sum.
    rewrite length_app. cbn [length]. rewrite length_map. fold n.
    replace (S n + 1)%nat with (n + 2)%nat by lia.
    apply discounted_sum_ext. intros t Ht. apply cashflow_vector_nth. fold n. lia.
  - replace (n + 2)%nat with (S (n + 1)) by lia. cbn [discounted_sum]. do 2 f_equal.
    unfold cf, cashflow_at. rewrite Nat.add_1_r.
    assert (E : nth_error outflows n = None) by (apply nth_error_None; subst n; lia).
    now rewrite E.
Qed.

(** *** Balances that descend *)

Lemma descends_from_last (l : list R) :
  forall b, 0 <= b -> descends_from b l -> 0 <= last l b <= b.
Proof.
  induction l as [|x l IH]; intros b Hb Hl; cbn [descends_from] in Hl.
  - cbn. lra.
  - rewrite last_cons. destruct Hl as [Hx Hl].
    specialize (IH x (proj1 Hx) Hl). lra.
Qed.

Lemma descends_from_app (l1 l2 : list R) :
  forall b, descends_from b l1 -> descends_from (last l1 b) l2 ->
            descends_from b (l1 ++ l2).
Proof.
  induction l1 as [|x l1 IH]; intros b H1 H2; [exact H2|].
  cbn [app descends_from] in *. rewrite last_cons in H2.
  split; [tauto|]. apply IH; tauto.
Qed.

(** [(1 + r)^(-n)] lies strictly between 0 and 1 for a positive rate and a
    positive number of months. *)
Lemma discount_factor_bounds (r : R) (n : Z) :
  0 < r -> (0 < n)%Z -> 0 < powerRZ (1 + r) (- n) < 1.
Proof.
  intros Hr Hn. rewrite powerRZ_neg'.
  rewrite <- (Z2Nat.id n) by lia. rewrite <- pow_powerRZ.
  assert (H1 : 1 < (1 + r) ^ Z.to_nat n) by (apply Rlt_pow_R1; [lra|lia]).
  set (a := (1 + r) ^ Z.to_nat n) in H1 |- *.
  assert (H0 : 0 < / a) by (apply Rinv_0_lt_compat; lra).
  assert (Ha : / a * a = 1) by (apply Rinv_l; lra).
  split; [exact H0|]. nra.
Qed.

(** Compounding against simple interest. *)
Lemma compound_bounds (r : R) (k : nat) :
  0 <= r ->
  1 + INR k * r <= (1 + r) ^ k /\ (1 + r) ^ k * (1 - INR k * r) <= 1.
Proof.
  intros Hr. induction k as [|k [IH1 IH2]].
  - cbn. lra.
  - rewrite S_INR, <- tech_pow_Rmult.
    assert (Hk : 0 <= INR k) by apply pos_INR.
    set (q := (1 + r) ^ k) in *.
    assert (Hq : 1 <= q) by nra.
    split; nra.
Qed.

(** The annuity denominator [1 - (1 + r)^(-n)] is well away from zero once
    the monthly rate is at least a twelfth of 0.01 % and the term at least
    a year: rounding to binary64, of relative size 2^-53, cannot make it
    zero. *)
Lemma annuity_denominator_bounds (r : R) (n : Z) :
  1 / 120000 <= r -> (12 <= n)%Z ->
  1 / 20000 <= 1 - powerRZ (1 + r) (- n) <= 1.
Proof.
  intros Hr Hn.
  pose proof (@discount_factor_bounds r n ltac:(lra) ltac:(lia)) as Hq.
  split; [|lra].
  rewrite powerRZ_neg'. rewrite <- (Z2Nat.id n) by lia. rewrite <- pow_powerRZ.
  destruct (@compound_bounds r (Z.to_nat n) ltac:(lra)) as [B _].
  assert (Hk : 12 <= INR (Z.to_nat n)).
  { replace 12 with (INR 12) by (cbn; lra). apply le_INR. lia. }
  set (q := (1 + r) ^ Z.to_nat n) in *.
  assert (Hq1 : 1 + 1 / 10000 <= q) by nra.
  assert (Hiq : / q * q = 1) by (apply Rinv_l; lra).
  assert (Hiq0 : 0 < / q) by (apply Rinv_0_lt_compat; lra).
  nra.
Qed.

(** A share of at most 100 % of a bounded amount is bounded alike. *)
Lemma scaled_bound (x p B : R) :
  - B <= x <= B -> -1 <= p <= 1 -> - B <= x * p <= B.
Proof.
  intros Hx Hp.
  assert (0 <= (B - x) * (1 - p)) by (apply Rmult_le_pos; lra).
  assert (0 <= (B + x) * (1 + p)) by (apply Rmult_le_pos; lra).
  assert (0 <= (B - x) * (1 + p)) by (apply Rmult_le_pos; lra).
  assert (0 <= (B + x) * (1 - p)) by (apply Rmult_le_pos; lra).
  lra.
Qed.

(** One month: the new balance lies between 0 and the old one. *)
Lemma month_step_bounds (payment rate P b : R) :
  0 <= rate -> P * rate <= payment -> 0 <= b <= P ->
  0 <= b - Rmin (payment - b * rate) b <= b.
Proof.
  intros Hrate Hpay Hb.
  assert (b * rate <= P * rate) by nra.
  unfold Rmin. destruct (Rle_dec (payment - b * rate) b); lra.
Qed.

(** *** The best scenario *)

Lemma best_cons (x : Result.t R) (l : list (Result.t R)) :
  best (x :: l)
  = match best l with
    | None => Some x
    | Some e => if Rltb 0 (Result.npv e - Result.npv x) then Some e else Some x
    end.
Proof.
  unfold best. cbn [sort].
  destruct (sort _ l) as [|e rest]; [reflexivity|].
  cbn [insertSorted hd_error]. cbv beta iota zeta delta [ltb lit sub R_Number].
  now destruct (Rltb 0 _).
Qed.

(** The head of the sorted results is the first maximum. *)
Lemma best_first_maximum (l : list (Result.t R)) :
  l <> [] -> exists i r, best l = Some r /\ first_maximum l i r.
Proof.
  induction l as [|x l IH]; intros Hne; [congruence|]. clear Hne.
  rewrite best_cons. destruct l as [|x' l'].
  - exists O, x. split; [reflexivity|]. repeat split.
    + intros [|j] y Hy; cbn in Hy; [injection Hy as <-; lra|].
      destruct j; discriminate.
    + intros j y Hj. lia.
  - destruct (IH ltac:(discriminate)) as (i & e & Hbest & Hi & Hmax & Hfirst).
    rewrite Hbest. destruct (Rltb 0 _) eqn:E.
    + apply Rltb_true_iff in E. exists (S i), e. split; [reflexivity|]. repeat split.
      * exact Hi.
      * intros [|j] y Hy; cbn [nth_error] in Hy; [injection Hy as <-; lra|].
        exact (Hmax _ _ Hy).
      * intros [|j] y Hj Hy; cbn [nth_error] in Hy; [injection Hy as <-; lra|].
        apply (Hfirst j); [lia|exact Hy].
    + assert (Hle : Result.npv e <= Result.npv x).
      { destruct (Rlt_dec 0 (Result.npv e - Result.npv x)) as [Hlt|Hge]; [|lra].
        apply Rltb_true_iff in Hlt. congruence. }
      exists O, x. split; [reflexivity|]. repeat split.
      * intros [|j] y Hy; cbn [nth_error] in Hy; [injection Hy as <-; lra|].
        pose proof (Hmax _ _ Hy). lra.
      * intros j y Hj. lia.
Qed.

(** Real numbers always compare as an order. *)
Lemma comparable_R (xs : list R) : comparable xs = true.
Proof.
  unfold comparable. apply forallb_forall. intros a _.
  apply forallb_forall. intros b _.
  cbn [lit sub ltb R_Number]. unfold Rltb.
  apply andb_true_intro. split; [apply andb_true_intro; split|].
  - destruct (Rlt_dec 0 (b - a)), (Rlt_dec a b); try reflexivity; exfalso; lra.
  - destruct (Rlt_dec a b), (Rlt_dec b a); try reflexivity; exfalso; lra.
  - apply forallb_forall. intros c _.
    destruct (Rlt_dec a b), (Rlt_dec b c), (Rlt_dec a c); try reflexivity; exfalso; lra.
Qed.

Variable I : Inputs R.

Local Abbreviation N := (Z.to_nat (years I)).
Local Abbreviation rows := (yearlyData (finalState I)).

Lemma row_of_year (y : nat) :
  (1 <= y <= N)%nat ->
  exists row, nth_error rows (y - 1) = Some row /\ Snapshot.year row = Z.of_nat y.
Proof.
  intros Hy.
  destruct (nth_error rows (y - 1)) as [row|] eqn:E.
  - exists row. split; [reflexivity|].
    pose proof (yearlyData_years I) as Hyears.
    apply (map_nth_error (@Snapshot.year R)) in E.
    rewrite Hyears in E. unfold years_upto in E.
    rewrite nth_error_map, nth_error_seq in E.
    destruct (y - 1 <? Z.to_nat (years I))%nat; cbn in E; [|discriminate].
    injection E as <-. f_equal. lia.
  - apply nth_error_None in E. rewrite yearlyData_length in E. lia.
Qed.

(** Invested balances compound untouched; the outflow only enters the
    reported net worth. *)
Lemma invested_balances :
  let g := 1 + investNetRate I / 100 in
  map (@Snapshot.investA R) rows
  = map (fun i => netProceeds I * (investShareA I / 100) * g ^ S i) (seq 0 N) /\
  map (@Snapshot.investC R) rows
  = map (fun i => netProceeds I * (investShareC I / 100) * g ^ S i) (seq 0 N) /\
  Forall (fun row =>
            Snapshot.netWorthA row = Snapshot.investA row - Snapshot.outA row /\
            Snapshot.netWorthC row
            = Snapshot.investC row + cashC I - Snapshot.outC row) rows.
Proof.
  intros g.
  apply (finalState_invariant I
    (fun n s =>
       (investA s = netProceeds I * (investShareA I / 100) * g ^ n /\
        investC s = netProceeds I * (investShareC I / 100) * g ^ n) /\
       map (@Snapshot.investA R) (yearlyData s)
       = map (fun i => netProceeds I * (investShareA I / 100) * g ^ S i) (seq 0 n) /\
       map (@Snapshot.investC R) (yearlyData s)
       = map (fun i => netProceeds I * (investShareC I / 100) * g ^ S i) (seq 0 n) /\
       Forall (fun row =>
            Snapshot.netWorthA row = Snapshot.investA row - Snapshot.outA row /\
            Snapshot.netWorthC row
            = Snapshot.investC row + cashC I - Snapshot.outC row) (yearlyData s))).
  - cbn [initialState investA investC yearlyData map seq]. rewrite !pct_R.
    repeat split; try (real_ops; ring). constructor.
  - intros n s [[HA HC] [HmA [HmC HF]]].
    cbn [yearBody investA investC yearlyData].
    rewrite !growAnnual_R, HA, HC. subst g.
    repeat split.
    + rewrite <- tech_pow_Rmult. ring.
    + rewrite <- tech_pow_Rmult. ring.
    + rewrite map_app, seq_S, map_app, HmA. cbn [map Snapshot.investA Nat.add].
      do 2 f_equal. rewrite <- (tech_pow_Rmult _ n). ring.
    + rewrite map_app, seq_S, map_app, HmC. cbn [map Snapshot.investC Nat.add].
      do 2 f_equal. rewrite <- (tech_pow_Rmult _ n). ring.
    + apply Forall_app. split; [exact HF|]. constructor; [|constructor].
      cbn. split; reflexivity.
Qed.

(** Rent and storage: the figures of year 1 are the configured ones, and
    inflation compounds from year 2 on. *)
Lemma rent_storage_outflows :
  let outflow (i : nat) :=
    12 * monthlyRent I * (1 + rentAnnualInflationPct I / 100) ^ i
    + (if includeStorage I
       then 12 * storageMonthly I * (1 + storageAnnualInflationPct I / 100) ^ i
       else 0) in
  map (@Snapshot.outA R) rows = map outflow (seq 0 N) /\
  map (@Snapshot.outC R) rows = map outflow (seq 0 N).
Proof.
  intros outflow.
  assert (HA : map (@Snapshot.outA R) rows = map outflow (seq 0 N)).
  { apply (finalState_invariant I
      (fun n s =>
         (rent s = monthlyRent I * (1 + rentAnnualInflationPct I / 100) ^ n /\
          storage s = storageMonthly I * (1 + storageAnnualInflationPct I / 100) ^ n) /\
         map (@Snapshot.outA R) (yearlyData s) = map outflow (seq 0 n))).
    - cbn [initialState rent storage yearlyData map seq]. repeat split; ring.
    - intros n s [[Hr Hs] Hm]. cbn [yearBody rent storage yearlyData].
      rewrite !pct_R, Hr, Hs. repeat split.
      + rewrite <- tech_pow_Rmult. real_ops. ring.
      + rewrite <- tech_pow_Rmult. real_ops. ring.
      + rewrite map_app, seq_S, map_app, Hm. cbn [map Snapshot.outA Nat.add].
        do 2 f_equal. subst outflow. cbv beta.
        destruct (includeStorage I); real_ops; ring. }
  split; [exact HA|]. now rewrite outC_outA.
Qed.

(** *** Scenario C against scenario A *)

Lemma terminalC_terminalA :
  investShareA I = investShareC I -> terminalC I = terminalA I + cashC I.
Proof.
  intros Hshare.
  destruct invested_balances as (HA & HC & _). cbv zeta in HA, HC.
  rewrite Hshare, <- HC in HA.
  assert (EA : last_field_or_zero rows (@Snapshot.investA R)
               = last_field_or_zero (map (@Snapshot.investA R) rows) (fun x => x)).
  { symmetry. exact (last_field_map (@Snapshot.investA R) rows (fun x => x)). }
  assert (EC : last_field_or_zero rows (@Snapshot.investC R)
               = last_field_or_zero (map (@Snapshot.investC R) rows) (fun x => x)).
  { symmetry. exact (last_field_map (@Snapshot.investC R) rows (fun x => x)). }
  unfold terminalC, terminalA. now rewrite EA, EC, HA.
Qed.

(** With the same invested share, scenario C is worth scenario A plus the
    cash it keeps uninvested, discounted as a terminal value. *)
Lemma npvC_npvA :
  investShareA I = investShareC I ->
  npvC I = npvA I + cashC I / (1 + discountRatePct I / 100) ^ (N + 1).
Proof.
  intros Hshare.
  destruct (cashflows_shape I) as (HA & _ & HC & _). cbv zeta in HA, HC.
  assert (Hcf : cashflowsC (finalState I) = cashflowsA (finalState I)).
  { rewrite HA, HC. f_equal.
    rewrite <- (map_map (@Snapshot.outC R) (fun x => neg x)), outC_outA.
    now rewrite map_map. }
  unfold npvC, npvA. rewrite Hcf, !npv_snoc, terminalC_terminalA by exact Hshare.
  rewrite HA. cbn [length]. rewrite length_map, yearlyData_length.
  rewrite pct_R. cbv beta iota zeta delta [lit add div pow R_Number].
  replace (N + 1)%nat with (S N) by lia. rewrite <- pow_powerRZ.
  unfold Rdiv. ring.
Qed.

(** *** The loan balance *)

Lemma mortgagePrincipalB_nonneg : 0 <= mortgagePrincipalB I.
Proof. unfold mortgagePrincipalB. real_ops. apply Rmax_l. Qed.

(** The fixed payment covers the interest on the whole principal. *)
Lemma payment_covers_interest :
  0 <= mortgageRatePct I -> (0 < mortgageYears I)%Z ->
  0 <= monthlyMortgageRate I /\
  mortgagePrincipalB I * monthlyMortgageRate I <= mortgagePayment I.
Proof.
  intros Hrate Hterm.
  pose proof mortgagePrincipalB_nonneg as HP.
  unfold mortgagePayment, amortizationPayment, monthlyMortgageRate in *.
  rewrite !pct_R. set (P := mortgagePrincipalB I) in *.
  cbv beta iota zeta delta [lit sub add mul div pow eqb R_Number].
  set (r := mortgageRatePct I / 100 / 12).
  assert (Hr : 0 <= r) by (subst r; lra).
  split; [exact Hr|].
  destruct (Reqb r 0) eqn:E.
  - apply Reqb_true_iff in E. rewrite E, Rmult_0_r.
    apply Rmult_le_pos; [exact HP|].
    apply Rlt_le, Rinv_0_lt_compat, IZR_lt. lia.
  - assert (Hr' : 0 < r).
    { destruct Hr as [Hr|Hr]; [exact Hr|]. symmetry in Hr.
      apply Reqb_true_iff in Hr. congruence. }
    pose proof (discount_factor_bounds Hr' (n := mortgageYears I * 12)) as Hq.
    specialize (Hq ltac:(lia)).
    set (q := powerRZ (1 + r) (- (mortgageYears I * 12))) in *.
    assert (Hd : 0 < 1 - q <= 1) by lra.
    assert (HPr : 0 <= P * r) by (apply Rmult_le_pos; assumption).
    apply Rmult_le_reg_r with (r := 1 - q); [lra|].
    replace (P * r / (1 - q) * (1 - q)) with (P * r) by (field; lra). nra.
Qed.

Section Balances.

Hypothesis rate_nonneg : 0 <= mortgageRatePct I.
Hypothesis term_pos : (0 < mortgageYears I)%Z.

Lemma monthlyBalances_descend (months : nat) :
  forall b, 0 <= b <= mortgagePrincipalB I ->
            descends_from b (monthlyBalances I months b).
Proof.
  destruct (payment_covers_interest rate_nonneg term_pos) as [Hrate Hpay].
  induction months as [|months IH]; intros b Hb; [exact Logic.I|].
  cbn [monthlyBalances descends_from].
  pose proof (month_step_bounds Hrate Hpay Hb) as Hstep.
  cbv beta iota zeta delta [sub mul min leb epsilon R_Number].
  split; [exact Hstep|].
  destruct (Rleb _ _); [exact Logic.I|]. apply IH.
  exact (conj (proj1 Hstep) (Rle_trans _ _ _ (proj2 Hstep) (proj2 Hb))).
Qed.

Lemma balanceTrace_descend (count : nat) :
  descends_from (mortgagePrincipalB I) (balanceTrace I count (mortgagePrincipalB I)).
Proof.
  pose proof mortgagePrincipalB_nonneg as HP.
  induction count as [|count IH]; [exact Logic.I|].
  cbn [balanceTrace]. apply descends_from_app; [exact IH|].
  apply monthlyBalances_descend. now apply descends_from_last.
Qed.

Lemma yearEndBalances_descend (count : nat) :
  descends_from (mortgagePrincipalB I) (yearEndBalances I count (mortgagePrincipalB I)).
Proof.
  pose proof mortgagePrincipalB_nonneg as HP.
  induction count as [|count IH]; [exact Logic.I|].
  cbn [yearEndBalances]. apply descends_from_app; [exact IH|].
  pose proof (descends_from_last _ HP IH) as Hlast.
  rewrite amortizeMonths_balance. cbn [descends_from]. split; [|exact Logic.I].
  pose proof (descends_from_last _ (proj1 Hlast)
                (monthlyBalances_descend 12 Hlast)).
  lra.
Qed.

(** The monthly loop, run for any number of months from a balance between
    0 and the principal, ends between 0 and that balance. *)
Lemma amortizeMonths_bounds (months : nat) (b interestPaidYear : R) :
  0 <= b <= mortgagePrincipalB I ->
  0 <= fst (amortizeMonths I months b interestPaidYear) <= b.
Proof.
  intros Hb. rewrite amortizeMonths_balance.
  apply descends_from_last; [tauto|]. now apply monthlyBalances_descend.
Qed.

Lemma descends_from_max0 (l : list R) :
  forall b, descends_from b l -> map (Rmax 0) l = l.
Proof.
  induction l as [|x l IH]; intros b H; [reflexivity|].
  cbn [map descends_from] in *. destruct H as [Hx Hl].
  rewrite (IH x Hl), Rmax_right by lra. reflexivity.
Qed.

End Balances.

End RealEngine.

(** ** The concrete parameter sets *)

Section OnSamples.

Local Open Scope R_scope.

Lemma netProceeds_sample (d a c : R) (t h : Z) (s : bool) :
  netProceeds (inputsWith d t s a c h) = 1222000.
Proof.
  unfold netProceeds, capGainsTax, equityBeforeTax, sellingCosts, grossSale.
  cbn [inputsWith currentHomeValue currentMortgageBalance sellingCostsPct capGainsTaxPct].
  rewrite !pct_R. cbv beta iota zeta delta [lit sub mul div max R_Number]. lra.
Qed.

Lemma cashC_equalShare : cashC (equalShareInputs (T:=R)) = 611000.
Proof.
  unfold cashC, equalShareInputs. rewrite netProceeds_sample, pct_R.
  cbn [inputsWith investShareC].
  cbv beta iota zeta delta [lit sub mul div R_Number]. lra.
Qed.

Lemma discount_equalShare :
  discountRatePct (equalShareInputs (T:=R)) / 100 = 55 / 1000.
Proof.
  cbn [equalShareInputs inputsWith discountRatePct].
  cbv beta iota zeta delta [lit div R_Number]. lra.
Qed.

Lemma ordinary_sample (d a c : R) (t h : Z) (s : bool) :
  -100 <= d <= 100 -> -100 <= a <= 100 -> -100 <= c <= 100 ->
  (t <= 100)%Z -> (h <= 100)%Z ->
  ordinary (inputsWith d t s a c h).
Proof.
  intros Hd Ha Hc Ht Hh. unfold ordinary, amounts, percentages.
  cbn [inputsWith currentHomeValue currentMortgageBalance smallerHomePrice
       insuranceAnnual hoaMonthly monthlyRent storageMonthly
       keepPropertyTaxAnnual keepInsuranceAnnual keepHoaMonthly keepExtraMaintAnnual
       sellingCostsPct capGainsTaxPct currentHomeAppreciationPct
       smallerHomeClosingPct downPaymentFromProceedsPct mortgageRatePct
       propertyTaxPct maintenancePct homeAppreciationPct
       rentAnnualInflationPct storageAnnualInflationPct
       ivvAnnualReturnPct investReturnPct returnAdjustPct
       investTaxDragPct investShareA investShareB investShareC
       discountRatePct years mortgageYears].
  cbn [lit div R_Number].
  split; [|split; [|split; assumption]];
    repeat (apply Forall_cons; [lra|]); apply Forall_nil.
Qed.

Lemma ordinary_default : ordinary (defaultInputs (T:=R)).
Proof.
  apply ordinary_sample; cbn [lit R_Number]; lra || lia.
Qed.

Lemma zeroOrPricedRate_nonneg (p : R) : zeroOrPricedRate p -> 0 <= p.
Proof. unfold zeroOrPricedRate. lra. Qed.

Lemma sample_rate_priced (d a c : R) (t h : Z) (s : bool) :
  zeroOrPricedRate (mortgageRatePct (inputsWith d t s a c h)).
Proof.
  right. cbn [inputsWith mortgageRatePct]. cbn [lit div R_Number]. lra.
Qed.

Lemma zeroLaws_R : zeroLaws R_Number.
Proof.
  unfold zeroLaws. cbn [lit epsilon add sub min max leb R_Number].
  repeat split; try lra.
  - apply Rmin_left; lra.
  - apply Rmax_left; lra.
  - unfold Rleb. destruct (Rle_dec 0 (/ 1000000)); [reflexivity|]. exfalso. lra.
Qed.

Lemma zeroLaws_binary64 : zeroLaws F_Number.
Proof. unfold zeroLaws. vm_compute. repeat split. Qed.

(** With a horizon of no year, over the reals: nothing but the upfront
    transaction of B and the cash held in C is valued. *)
Lemma zero_horizon_R (I : Inputs R) :
  (years I <= 0)%Z -> discountRatePct I <> -100 ->
  npvA I = 0 /\
  npvB I = - (smallerHomePrice I * (smallerHomeClosingPct I / 100) + dpB I) /\
  npvC I = cashC I / (1 + discountRatePct I / 100) /\
  npvD I = 0.
Proof.
  intros Hyears Hd.
  unfold npvA, npvB, npvC, npvD, terminalA, terminalB, terminalC, terminalD.
  rewrite (finalState_zero_horizon I Hyears).
  cbn. unfold pct. cbn [lit add sub mul div max R_Number].
  assert (1 + discountRatePct I / 100 <> 0) by lra.
  change (Pos.to_nat 1) with 1%nat. rewrite !pow_1.
  set (m := Rmax _ _).
  repeat split; field; lra.
Qed.

(** *** Parameter sets of ordinary size *)

Ltac split_Forall :=
  repeat match goal with
         | H : Forall _ (_ :: _) |- _ =>
             apply Forall_cons_iff in H; destruct H as [? H]
         end.

(** On a parameter set of ordinary size the principal of the loan is at
    most 7 * 10^12. *)
Lemma ordinary_principal (I : Inputs R) :
  ordinary I -> 0 <= mortgagePrincipalB I <= 7000000000000.
Proof.
  intros (Ha & Hp & _ & _). unfold amounts, percentages in *. split_Forall.
  split; [apply mortgagePrincipalB_nonneg|].
  unfold mortgagePrincipalB, dpB, netProceeds, capGainsTax, equityBeforeTax,
    sellingCosts, grossSale, pct.
  cbn [lit sub mul div max R_Number].
  set (g := currentHomeValue I) in *. set (b := currentMortgageBalance I) in *.
  set (s := sellingCostsPct I / 100). set (c := capGainsTaxPct I / 100).
  set (d := downPaymentFromProceedsPct I / 100).
  assert (Hs : -1 <= s <= 1) by (subst s; lra).
  assert (Hc : -1 <= c <= 1) by (subst c; lra).
  assert (Hd : -1 <= d <= 1) by (subst d; lra).
  assert (Hgs : - 1000000000000 <= g * s <= 1000000000000)
    by (apply scaled_bound; assumption).
  set (e := g - b - g * s) in *.
  assert (He : - 3000000000000 <= e <= 3000000000000) by (subst e; lra).
  assert (Hm : - 3000000000000 <= Rmax 0 e <= 3000000000000).
  { unfold Rmax. destruct (Rle_dec 0 e); lra. }
  set (m := Rmax 0 e) in *.
  assert (Hmc : - 3000000000000 <= m * c <= 3000000000000)
    by (apply scaled_bound; assumption).
  set (np := e - m * c) in *.
  assert (Hnp : - 6000000000000 <= np <= 6000000000000) by (subst np; lra).
  assert (Hdp : - 6000000000000 <= np * d <= 6000000000000)
    by (apply scaled_bound; assumption).
  unfold Rmax. destruct (Rle_dec 0 (smallerHomePrice I - np * d)); lra.
Qed.

(** On a parameter set of ordinary size with a rate that is zero or priced
    and a positive term, the annuity denominator is at least 1/20000 where
    it is used, and the payment is at most 2 * 10^16. *)
Lemma ordinary_payment (I : Inputs R) :
  ordinary I -> zeroOrPricedRate (mortgageRatePct I) -> (0 < mortgageYears I)%Z ->
  let r := monthlyMortgageRate I in
  let n := (mortgageYears I * 12)%Z in
  (r = 0 \/ (1 / 120000 <= r <= 1 / 12 /\ 1 / 20000 <= 1 - powerRZ (1 + r) (- n) <= 1)) /\
  0 <= mortgagePayment I <= 20000000000000000.
Proof.
  intros Hord Hpriced Hterm r n.
  pose proof (ordinary_principal Hord) as HP.
  assert (Hrate : mortgageRatePct I <= 100).
  { destruct Hord as (_ & Hp & _). unfold percentages in Hp. split_Forall. lra. }
  assert (Er : r = mortgageRatePct I / 100 / 12) by reflexivity.
  assert (Hn : (12 <= n)%Z) by (subst n; lia).
  assert (HIn : 12 <= IZR n) by (apply IZR_le in Hn; exact Hn).
  destruct (amortizationPayment_branches (mortgagePrincipalB I) (mortgageRatePct I)
              (mortgageYears I)) as [Hzero Hpos].
  cbv zeta in Hzero, Hpos. rewrite pct_R in Hzero, Hpos.
  cbn [lit add sub mul div pow eqb R_Number] in Hzero, Hpos.
  fold (mortgagePayment I) in Hzero, Hpos. fold n in Hzero, Hpos.
  rewrite <- Er in Hzero, Hpos.
  set (P := mortgagePrincipalB I) in *.
  destruct Hpriced as [H0|H1].
  - assert (E : r = 0) by (rewrite Er, H0; lra).
    split; [now left|].
    rewrite Hzero by now apply Reqb_true_iff.
    assert (Hi : 0 < / IZR n <= 1) by (split; [apply Rinv_0_lt_compat; lra|
      rewrite <- Rinv_1; apply Rinv_le_contravar; lra]).
    unfold Rdiv. split; [apply Rmult_le_pos; lra|].
    assert (P * / IZR n <= P * 1) by (apply Rmult_le_compat_l; lra). lra.
  - assert (Hr : 1 / 120000 <= r <= 1 / 12) by (rewrite Er; lra).
    pose proof (annuity_denominator_bounds (proj1 Hr) Hn) as Hd.
    split; [right; split; assumption|].
    rewrite Hpos.
    2:{ destruct (Reqb r 0) eqn:E; [|reflexivity]. apply Reqb_true_iff in E. lra. }
    set (d := 1 - powerRZ (1 + r) (- n)) in *.
    assert (HPr : 0 <= P * r <= 7000000000000 / 12).
    { split; [apply Rmult_le_pos; lra|].
      assert (P * r <= 7000000000000 * r) by (apply Rmult_le_compat_r; lra).
      assert (7000000000000 * r <= 7000000000000 * (1 / 12))
        by (apply Rmult_le_compat_l; lra).
      lra. }
    assert (Hid : 0 < / d <= 20000).
    { split; [apply Rinv_0_lt_compat; lra|].
      replace 20000 with (/ (1 / 20000)) by (field; lra).
      apply Rinv_le_contravar; lra. }
    unfold Rdiv. split; [apply Rmult_le_pos; lra|].
    assert (P * r * / d <= 7000000000000 / 12 * / d)
      by (apply Rmult_le_compat_r; lra).
    assert (7000000000000 / 12 * / d <= 7000000000000 / 12 * 20000)
      by (apply Rmult_le_compat_l; lra).
    lra.
Qed.

(** The engine runs on binary64 as it stands. *)

Example default_netProceeds_binary64 :
  Output.netProceeds (simulate (T:=float) defaultInputs) = F.of_Z 1222000.
Proof. vm_compute. reflexivity. Qed.

Example default_run_binary64 :
  let o := simulate (T:=float) defaultInputs in
  length (Output.yearlyData o) = 15%nat /\
  finite_results o = true /\
  option_map (@Result.key float) (best (Output.results o)) = Some ScenarioA.
Proof. vm_compute. repeat split. Qed.

Example straight_line_payment_binary64 :
  amortizationPayment (T:=float) (F.of_Z 360000) (F.of_Z 0) 30 = F.of_Z 1000.
Proof. vm_compute. reflexivity. Qed.

Example equal_shares_binary64 :
  PrimFloat.ltb (npvA (T:=float) equalShareInputs) (npvC equalShareInputs) = true.
Proof. vm_compute. reflexivity. Qed.

(** On binary64 the loan balance of the default run descends year by year,
    as it does over the reals. *)
Example default_balances_binary64 :
  let balances :=
    map (@Snapshot.remainingPrincipal float)
        (Output.yearlyData (simulate (T:=float) defaultInputs)) in
  let fix descending (b : float) (l : list float) : bool :=
    match l with
    | [] => true
    | x :: l' => PrimFloat.leb 0 x && PrimFloat.leb x b && descending x l'
    end in
  descending (mortgagePrincipalB (T:=float) defaultInputs) balances = true.
Proof. vm_compute. reflexivity. Qed.

(** A horizon of no year on binary64: no snapshot, and four finite results. *)
Example zero_horizon_binary64 :
  let o := simulate (T:=float) zeroHorizonInputs in
  degenerate zeroHorizonInputs = true /\
  Output.yearlyData o = [] /\
  finite_results o = true /\
  map (fun res => (Result.key res, Result.npv res, Result.terminal res)) (Output.results o)
  = [ (ScenarioA, 0, 0); (ScenarioB, -628500, 0);
      (ScenarioC, 611000 / (1 + 55 / 10 / 100), 611000); (ScenarioD, 0, 0) ]%float.
Proof. vm_compute. repeat split. Qed.

(** At the smallest priced rate, 0.01 %, on binary64: for every term of 1 to
    100 years neither the number of months nor the annuity denominator is
    zero, and the payment on 89,000 lies within the bounds it has over the
    reals. *)
Example priced_rate_binary64 :
  let rate := (lit 1 / lit 100 : float)%num in
  let r := (pct rate / lit 12)%num in
  forallb (fun years =>
             let n := (years * 12)%Z in
             let payment := amortizationPayment (lit 89000) rate years in
             negb (PrimFloat.eqb (lit n) (lit 0))
             && PrimFloat.ltb (lit 0) (lit 1 - pow (lit 1 + r) (- n))%num
             && PrimFloat.leb (lit 89000 / lit n)%num payment
             && PrimFloat.leb payment (lit 89000 / lit n + lit 89000 * r)%num)
          (map Z.of_nat (seq 1 100))
  = true.
Proof. vm_compute. reflexivity. Qed.

(** The home fully paid from the proceeds, at 0.01 %, on binary64: the
    payment is zero and so is the remaining principal of every snapshot. *)
Example cash_purchase_priced_rate_binary64 :
  let I := withLoan (lit 700000) (lit 100) (lit 1 / lit 100)%num 30
                    (defaultInputs (T:=float)) in
  mortgagePayment I = lit 0 /\
  map (@Snapshot.remainingPrincipal float) (Output.yearlyData (simulate I))
  = repeat (lit 0) 15.
Proof. vm_compute. split; reflexivity. Qed.

End OnSamples.

(** ** The claims *)

Local Open Scope R_scope.

(** C1.  For a horizon of N years, the net present value of every scenario
    is the discounted sum [Σ cf_t / (1 + r)^t], with r the discount rate as
    a fraction, over the cash-flow vector that holds the upfront transaction
    at position 0 (minus the down payment and closing costs for B, zero for
    A, C and D), the negated outflow of year y at position y for y in 1..N,
    and the terminal value at position N + 1: the terminal value is
    discounted by [(1 + r)^(N + 1)]. *)
Theorem C1_npv_is_discounted_cashflow_sum (I : Inputs R) :
  let N := Z.to_nat (years I) in
  let r := discountRatePct I / 100 in
  let rows := Output.yearlyData (simulate I) in
  let closingCosts := smallerHomePrice I * (smallerHomeClosingPct I / 100) in
  let vector (k : Scenario) : nat -> R :=
    match k with
    | ScenarioA => cashflow_at 0 (map (@Snapshot.outA R) rows) (terminalA I)
    | ScenarioB =>
        cashflow_at (- (dpB I + closingCosts)) (map (@Snapshot.homeCostsB R) rows)
          (terminalB I)
    | ScenarioC => cashflow_at 0 (map (@Snapshot.outC R) rows) (terminalC I)
    | ScenarioD => cashflow_at 0 (map (@Snapshot.outD R) rows) (terminalD I)
    end in
  let terminal_of (k : Scenario) : R :=
    match k with
    | ScenarioA => terminalA I
    | ScenarioB => terminalB I
    | ScenarioC => terminalC I
    | ScenarioD => terminalD I
    end in
  length rows = N /\
  map (@Snapshot.year R) rows = years_upto N /\
  map (fun res => (Result.key res, Result.terminal res)) (Output.results (simulate I))
  = map (fun k => (k, terminal_of k)) [ScenarioA; ScenarioB; ScenarioC; ScenarioD] /\
  Forall (fun res =>
            Result.npv res = discounted_sum (vector (Result.key res)) r (N + 2) /\
            Result.npv res
            = discounted_sum (vector (Result.key res)) r (N + 1)
              + Result.terminal res / (1 + r) ^ (N + 1))
         (Output.results (simulate I)).
Proof.
  intros N r rows closingCosts vector terminal_of.
  assert (Hlen : length rows = N) by apply yearlyData_length.
  split; [exact Hlen|]. split; [apply yearlyData_years|]. split; [reflexivity|].
  destruct (cashflows_shape I) as (HA & HB & HC & HD).
  cbv zeta in HA, HB, HC, HD. change (yearlyData (finalState I)) with rows in *.
  assert (HB' : cashflowsB (finalState I)
                = - (dpB I + closingCosts)
                    :: map Ropp (map (@Snapshot.homeCostsB R) rows)).
  { rewrite HB, map_map. f_equal. subst closingCosts. rewrite pct_R.
    cbv beta iota zeta delta [sub mul div neg lit R_Number]. ring. }
  rewrite <- (map_map (@Snapshot.outA R) Ropp) in HA.
  rewrite <- (map_map (@Snapshot.outC R) Ropp) in HC.
  rewrite <- (map_map (@Snapshot.outD R) Ropp) in HD.
  pose proof (npv_of_vector (terminalA I) (discountRatePct I) _ HA) as [A1 A2].
  pose proof (npv_of_vector (terminalB I) (discountRatePct I) _ HB') as [B1 B2].
  pose proof (npv_of_vector (terminalC I) (discountRatePct I) _ HC) as [C1 C2].
  pose proof (npv_of_vector (terminalD I) (discountRatePct I) _ HD) as [D1 D2].
  rewrite length_map, Hlen in A1, A2, B1, B2, C1, C2, D1, D2.
  cbn [simulate Output.results].
  repeat (apply Forall_cons || apply Forall_nil);
    cbn [Result.npv Result.key Result.terminal]; split.
  - exact A1.
  - exact (eq_trans A1 A2).
  - exact B1.
  - exact (eq_trans B1 B2).
  - exact C1.
  - exact (eq_trans C1 C2).
  - exact D1.
  - exact (eq_trans D1 D2).
Qed.

(** C2, as the specification states it, fails: with storage disabled and
    50% invested in both scenarios, the net present values of A and C
    differ. *)
Lemma C2_equal_shares_counterexample :
  includeStorage (equalShareInputs (T:=R)) = false /\
  investShareA (equalShareInputs (T:=R)) = investShareC equalShareInputs /\
  npvA (equalShareInputs (T:=R)) <> npvC equalShareInputs.
Proof.
  split; [reflexivity|]. split; [reflexivity|].
  rewrite (npvC_npvA equalShareInputs eq_refl), cashC_equalShare.
  rewrite discount_equalShare.
  set (n := (Z.to_nat (years (equalShareInputs (T:=R))) + 1)%nat).
  assert (Hpow : 0 < (1 + 55 / 1000) ^ n) by (apply pow_lt; lra).
  assert (0 < 611000 / (1 + 55 / 1000) ^ n)
    by (apply Rdiv_lt_0_compat; [lra|exact Hpow]).
  lra.
Qed.

(** C2, amended.  When scenarios A and C invest the same share and storage
    is disabled, the net present value of C is that of A plus the cash C
    keeps uninvested, [netProceeds * (1 - investShareC / 100)], discounted
    by [(1 + r)^(N + 1)]; the two are equal when the whole proceeds are
    invested.  (The discount rate is not -100%, so that no discount factor
    divides by zero.) *)
Theorem C2_npvC_is_npvA_plus_cash (I : Inputs R) :
  investShareA I = investShareC I ->
  includeStorage I = false ->
  discountRatePct I <> -100 ->
  let N := Z.to_nat (years I) in
  let r := discountRatePct I / 100 in
  npvC I = npvA I + netProceeds I * (1 - investShareC I / 100) / (1 + r) ^ (N + 1) /\
  (investShareC I = 100 -> npvA I = npvC I).
Proof.
  intros Hshare _ _ N r.
  pose proof (npvC_npvA I Hshare) as H. fold N r in H.
  assert (Hcash : cashC I = netProceeds I * (1 - investShareC I / 100)) by reflexivity.
  rewrite Hcash in H. split; [exact H|].
  intros H100. rewrite H, H100. replace (1 - 100 / 100) with 0 by lra.
  unfold Rdiv. ring.
Qed.

(** C2, amended, at [equalShareInputs]. *)
Lemma C2_npvC_is_npvA_plus_cash_witness :
  let I := equalShareInputs (T:=R) in
  npvC I
  = npvA I + netProceeds I * (1 - investShareC I / 100)
             / (1 + discountRatePct I / 100) ^ (Z.to_nat (years I) + 1) /\
  (investShareC I = 100 -> npvA I = npvC I).
Proof.
  apply (C2_npvC_is_npvA_plus_cash (equalShareInputs (T:=R))).
  - reflexivity.
  - reflexivity.
  - cbn [equalShareInputs inputsWith discountRatePct].
    cbv beta iota zeta delta [lit div R_Number]. lra.
Defined.

(** C3, as the specification states it, fails: a loan of zero years on a
    home fully paid from the proceeds is a degenerate input, yet it is
    projected like any other, over its fifteen years, and the results hold
    NaN (the net present value and the terminal value of scenario B). *)
Lemma C3_zero_term_returns_nan :
  let o := simulate (T:=float) zeroTermInputs in
  degenerate zeroTermInputs = true /\
  length (Output.yearlyData o) = 15%nat /\
  finite_results o = false /\
  map (fun res => (Result.key res, PrimFloat.is_nan (Result.npv res),
                   PrimFloat.is_nan (Result.terminal res)))
      (Output.results o)
  = [(ScenarioA, false, false); (ScenarioB, true, true);
     (ScenarioC, false, false); (ScenarioD, false, false)].
Proof.
  vm_compute. repeat split.
Qed.

(** C3, amended.  The engine has no validation.  Every parameter set with a
    whole number of years as horizon and as loan term is projected, into
    one snapshot per year of the horizon and the four results A, B, C, D.
    A horizon of no year in particular is projected, not rejected: there is
    no snapshot, the terminal values are those of the [?? 0] defaults (0
    for A and D, [0 - 0 + 0] for B, the cash held for C) and each net
    present value is that of the two-entry array of the upfront transaction
    and the terminal value.  Nothing is said here of what a loan term of
    zero years or a non-finite rate make of the results. *)
Theorem C3_zero_horizon_is_projected {T : Type} {num : Number T} (I : Inputs T) :
  let upfront := (- (smallerHomePrice I * pct (smallerHomeClosingPct I)) - dpB I)%num in
  let result key terminal cashflows :=
    {| Result.key := key;
       Result.npv := npv (cashflows ++ [terminal]) (discountRatePct I);
       Result.terminal := terminal |} in
  length (Output.yearlyData (simulate I)) = Z.to_nat (years I) /\
  map (@Result.key T) (Output.results (simulate I))
  = [ScenarioA; ScenarioB; ScenarioC; ScenarioD] /\
  ((years I <= 0)%Z ->
   simulate I
   = {| Output.netProceeds := netProceeds I;
        Output.yearlyData := [];
        Output.results :=
          [ result ScenarioA (lit 0) [lit 0];
            result ScenarioB (lit 0 - lit 0 + lit 0)%num [upfront];
            result ScenarioC (lit 0 + cashC I)%num [lit 0];
            result ScenarioD (lit 0) [lit 0] ] |}).
Proof.
  intros upfront result.
  split; [apply yearlyData_length|]. split; [reflexivity|].
  intros Hyears. pose proof (finalState_zero_horizon I Hyears) as E.
  unfold simulate, npvA, npvB, npvC, npvD, terminalA, terminalB, terminalC, terminalD.
  rewrite E. reflexivity.
Qed.




(** C5.  The net sale proceeds are
    [(price - balance - price * sellingCostRate)
     - max(0, price - balance - price * sellingCostRate) * capGainsRate];
    with no mortgage balance, no selling cost and no capital-gains tax they
    are the sale price itself, and a sale at 1,300,000 with no balance, 6%
    selling costs and no capital-gains tax nets 1,222,000. *)
Theorem C5_net_proceeds (I : Inputs R) :
  let price := currentHomeValue I in
  let balance := currentMortgageBalance I in
  let equity := price - balance - price * (sellingCostsPct I / 100) in
  let net := Output.netProceeds (simulate I) in
  net = equity - Rmax 0 equity * (capGainsTaxPct I / 100) /\
  (balance = 0 -> sellingCostsPct I = 0 -> capGainsTaxPct I = 0 -> net = price) /\
  (price = 1300000 -> balance = 0 -> sellingCostsPct I = 6 -> capGainsTaxPct I = 0 ->
   net = 1222000).
Proof.
  intros price balance equity net.
  assert (E : net = equity - Rmax 0 equity * (capGainsTaxPct I / 100)) by reflexivity.
  split; [exact E|]. rewrite E. subst equity price balance. split.
  - intros -> -> ->. lra.
  - intros -> -> -> ->. lra.
Qed.

(** C6.  In every year y of 1..N the invested balance of scenario A is
    [netProceeds * (investShareA / 100) * (1 + netReturn / 100)^y], and that
    of scenario C the same with its own share: the yearly rent and storage
    outflow is only subtracted in the reported net worth of the year, never
    from the balance that goes on compounding. *)
Theorem C6_invested_balance_compounds (I : Inputs R) (y : nat) :
  (1 <= y <= Z.to_nat (years I))%nat ->
  exists row,
    nth_error (Output.yearlyData (simulate I)) (y - 1) = Some row /\
    Snapshot.year row = Z.of_nat y /\
    Snapshot.investA row
    = netProceeds I * (investShareA I / 100) * (1 + investNetRate I / 100) ^ y /\
    Snapshot.investC row
    = netProceeds I * (investShareC I / 100) * (1 + investNetRate I / 100) ^ y /\
    Snapshot.netWorthA row = Snapshot.investA row - Snapshot.outA row /\
    Snapshot.netWorthC row = Snapshot.investC row + cashC I - Snapshot.outC row.
Proof.
  intros Hy.
  destruct (row_of_year I Hy) as (row & Hrow & Hyear).
  destruct (invested_balances I) as (HA & HC & HF). cbv zeta in HA, HC.
  pose proof (@nth_error_map_seq _ _ _ _ _ _ _ HA Hrow) as EA.
  pose proof (@nth_error_map_seq _ _ _ _ _ _ _ HC Hrow) as EC.
  cbv beta in EA, EC. replace (S (y - 1)) with y in EA, EC by lia.
  destruct (proj1 (Forall_forall _ _) HF row (nth_error_In _ _ Hrow)) as [WA WC].
  exists row. cbn [simulate Output.yearlyData].
  repeat split; assumption.
Qed.

(** C6 at [defaultInputs], year 2. *)
Lemma C6_invested_balance_compounds_witness :
  let I := defaultInputs (T:=R) in
  exists row,
    nth_error (Output.yearlyData (simulate I)) 1 = Some row /\
    Snapshot.year row = 2%Z /\
    Snapshot.investA row
    = netProceeds I * (investShareA I / 100) * (1 + investNetRate I / 100) ^ 2 /\
    Snapshot.investC row
    = netProceeds I * (investShareC I / 100) * (1 + investNetRate I / 100) ^ 2 /\
    Snapshot.netWorthA row = Snapshot.investA row - Snapshot.outA row /\
    Snapshot.netWorthC row = Snapshot.investC row + cashC I - Snapshot.outC row.
Proof.
  apply (C6_invested_balance_compounds (defaultInputs (T:=R)) (y := 2)).
  cbn [defaultInputs inputsWith years]. split; [lia|].
  change (Z.to_nat 15) with 15%nat. lia.
Defined.

(** C7.  In every year y of 1..N the rent and storage outflow of scenarios
    A and C is [12 * monthlyRent * (1 + rentInflation)^(y-1)], plus
    [12 * storageMonthly * (1 + storageInflation)^(y-1)] when storage is
    enabled: year 1 uses the configured figures as they are, inflation
    compounds from year 2 on. *)
Theorem C7_rent_storage_outflow (I : Inputs R) (y : nat) :
  (1 <= y <= Z.to_nat (years I))%nat ->
  let outflow :=
    12 * monthlyRent I * (1 + rentAnnualInflationPct I / 100) ^ (y - 1)
    + (if includeStorage I
       then 12 * storageMonthly I * (1 + storageAnnualInflationPct I / 100) ^ (y - 1)
       else 0) in
  exists row,
    nth_error (Output.yearlyData (simulate I)) (y - 1) = Some row /\
    Snapshot.year row = Z.of_nat y /\
    Snapshot.outA row = outflow /\
    Snapshot.outC row = outflow.
Proof.
  intros Hy outflow.
  destruct (row_of_year I Hy) as (row & Hrow & Hyear).
  destruct (rent_storage_outflows I) as (HA & HC). cbv zeta in HA, HC.
  pose proof (@nth_error_map_seq _ _ _ _ _ _ _ HA Hrow) as EA.
  pose proof (@nth_error_map_seq _ _ _ _ _ _ _ HC Hrow) as EC.
  exists row. cbn [simulate Output.yearlyData].
  repeat split; assumption.
Qed.

(** C7 at [defaultInputs], year 2. *)
Lemma C7_rent_storage_outflow_witness :
  let I := defaultInputs (T:=R) in
  let outflow :=
    12 * monthlyRent I * (1 + rentAnnualInflationPct I / 100) ^ 1
    + (if includeStorage I
       then 12 * storageMonthly I * (1 + storageAnnualInflationPct I / 100) ^ 1
       else 0) in
  exists row,
    nth_error (Output.yearlyData (simulate I)) 1 = Some row /\
    Snapshot.year row = 2%Z /\
    Snapshot.outA row = outflow /\
    Snapshot.outC row = outflow.
Proof.
  apply (C7_rent_storage_outflow (defaultInputs (T:=R)) (y := 2)).
  cbn [defaultInputs inputsWith years]. split; [lia|].
  change (Z.to_nat 15) with 15%nat. lia.
Defined.

(** C8, as the specification states it, fails on binary64: the payment
    does divide by zero.  At a rate of zero over a term of zero years the
    straight-line branch divides by [n = 0]: the payment on 100,000 is
    infinite, and that on a principal of zero is NaN.  At a rate of
    1e-15 %, over 30 years, r is not zero and the annuity branch is taken,
    but [1 + r] rounds to 1 and the denominator is zero all the same.  So
    it is at the negative rate of -2400 %, where [1 + r] is -1 and its even
    powers are 1. *)
Lemma C8_division_by_zero_counterexample :
  let denominator (ratePct : float) :=
    (lit 1 - pow (lit 1 + pct ratePct / lit 12) (- (30 * 12)))%num in
  (let r := (pct (lit 0) / lit 12)%num in
   let n := lit (0 * 12) in
   PrimFloat.eqb r (lit 0) = true /\ PrimFloat.eqb n (lit 0) = true /\
   PrimFloat.is_infinity (amortizationPayment (T:=float) (lit 100000) (lit 0) 0) = true /\
   PrimFloat.is_nan (amortizationPayment (T:=float) (lit 0) (lit 0) 0) = true) /\
  (let r := (pct tinyRatePct / lit 12)%num in
   PrimFloat.eqb r (lit 0) = false /\
   PrimFloat.eqb (denominator tinyRatePct) (lit 0) = true /\
   PrimFloat.is_infinity (amortizationPayment (T:=float) (lit 100000) tinyRatePct 30) = true /\
   PrimFloat.is_nan (amortizationPayment (T:=float) (lit 0) tinyRatePct 30) = true) /\
  (let r := (pct (lit (-2400)) / lit 12)%num in
   PrimFloat.eqb r (lit 0) = false /\
   PrimFloat.eqb (denominator (lit (-2400))) (lit 0) = true /\
   PrimFloat.is_infinity (amortizationPayment (T:=float) (lit 100000) (lit (-2400)) 30)
   = true).
Proof.
  vm_compute. repeat split.
Qed.

(** C8, amended.  With [n = years * 12] months and monthly rate r, the
    fixed payment is the straight-line [P / n] when r is exactly zero and
    [P * r / (1 - (1 + r)^(-n))] otherwise, for every principal, rate and
    term.  For a term that is not zero and an annual rate that is zero or
    at least 0.01 %, neither divides by zero: n is at least 12 in absolute
    value, and for r other than zero the annuity denominator is at least
    1/20000 in absolute value. *)
Theorem C8_amortization_payment (P annualRatePct : R) (years : Z) :
  let r := annualRatePct / 100 / 12 in
  let n := (years * 12)%Z in
  (r = 0 -> amortizationPayment P annualRatePct years = P / IZR n) /\
  (r <> 0 ->
   amortizationPayment P annualRatePct years = P * r / (1 - powerRZ (1 + r) (- n))) /\
  (years <> 0%Z -> zeroOrPricedRate annualRatePct ->
   12 <= Rabs (IZR n) /\
   (r <> 0 -> 1 / 20000 <= Rabs (1 - powerRZ (1 + r) (- n)))).
Proof.
  intros r n.
  destruct (amortizationPayment_branches P annualRatePct years) as [Hzero Hpos].
  cbv zeta in Hzero, Hpos. rewrite pct_R in Hzero, Hpos.
  cbn [lit add sub mul div pow eqb R_Number] in Hzero, Hpos.
  fold r n in Hzero, Hpos. split; [|split].
  - intros E. apply Hzero. now apply Reqb_true_iff.
  - intros E. apply Hpos. destruct (Reqb r 0) eqn:E'; [|reflexivity].
    apply Reqb_true_iff in E'. contradiction.
  - intros Hyears Hrate. split.
    + rewrite <- abs_IZR. apply IZR_le. lia.
    + intros E.
      assert (Hr : 1 / 120000 <= r) by (unfold zeroOrPricedRate in Hrate; subst r; lra).
      destruct (Z_lt_le_dec 0 n) as [Hn|Hn].
      * pose proof (@annuity_denominator_bounds r n Hr ltac:(lia)) as Hd.
        rewrite Rabs_right; lra.
      * pose proof (@annuity_denominator_bounds r (- n) Hr ltac:(lia)) as Hd.
        rewrite Z.opp_involutive in Hd.
        assert (Hq : 0 < powerRZ (1 + r) n) by (apply powerRZ_lt; lra).
        assert (Hinv : powerRZ (1 + r) (- n) * powerRZ (1 + r) n = 1).
        { rewrite <- powerRZ_add by lra. now rewrite Z.add_opp_diag_l. }
        set (q := powerRZ (1 + r) n) in *. set (q' := powerRZ (1 + r) (- n)) in *.
        assert (q <= 1 - 1 / 20000) by lra.
        assert (1 < q') by nra.
        assert (1 / 20000 <= q' - 1) by nra.
        rewrite Rabs_left; lra.
Qed.

(** C9, as the specification states it, fails on binary64.  With the whole
    proceeds paid down on a loan of zero years and nothing invested in
    scenario A, the net present value of B is NaN, the numbers do not
    compare as an order, and the head of the sorted results is A, although
    the net present value of D is larger than that of A. *)
Lemma C9_nan_counterexample :
  let results := Output.results (simulate (T:=float) unrankedInputs) in
  map (fun r => PrimFloat.is_nan (Result.npv r)) results = [false; true; false; false] /\
  comparable (map (@Result.npv float) results) = false /\
  exists a d,
    nth_error results 0 = Some a /\ nth_error results 3 = Some d /\
    best results = Some a /\
    PrimFloat.ltb (Result.npv a) (Result.npv d) = true.
Proof.
  split; [vm_compute; reflexivity|]. split; [vm_compute; reflexivity|].
  eexists. eexists. split; [reflexivity|]. split; [reflexivity|].
  split; vm_compute; reflexivity.
Qed.

(** C9, amended.  When the four net present values compare as an order,
    which they do unless one of them is NaN, the scenario selected as best
    is one that no other exceeds and, among those, the first in the order
    A, B, C, D: every result before it is strictly below it.  The selection
    is determined by the results. *)
Theorem C9_best_is_first_maximum {T : Type} {num : Number T} (I : Inputs T) :
  let results := Output.results (simulate I) in
  comparable (map (@Result.npv T) results) = true ->
  map (@Result.key T) results = [ScenarioA; ScenarioB; ScenarioC; ScenarioD] /\
  exists i selected,
    best results = Some selected /\
    firstBest results i selected /\
    (forall i' selected', firstBest results i' selected' ->
                          i' = i /\ selected' = selected).
Proof.
  intros results Hc. split; [reflexivity|].
  destruct (@best_firstBest _ _ results Hc ltac:(discriminate)) as (i & r & Hbest & Hmax).
  exists i, r. split; [exact Hbest|]. split; [exact Hmax|].
  intros i' r' H. destruct (firstBest_unique H Hmax). now split.
Qed.

(** C9, amended, on binary64 at [defaultInputs]. *)
Lemma C9_best_is_first_maximum_witness :
  let results := Output.results (simulate (T:=float) defaultInputs) in
  map (@Result.key float) results = [ScenarioA; ScenarioB; ScenarioC; ScenarioD] /\
  exists i selected,
    best results = Some selected /\
    firstBest results i selected /\
    (forall i' selected', firstBest results i' selected' ->
                          i' = i /\ selected' = selected).
Proof.
  apply (@C9_best_is_first_maximum float F_Number defaultInputs).
  vm_compute. reflexivity.
Defined.

(** C10.  Two parameter sets that agree on the current home value and its
    appreciation, the four keep-home carrying costs, the horizon and the
    discount rate give the same scenario-D result, whatever their other
    fields: the same net present value and terminal value, and the same
    outflow and net worth in every year. *)
Theorem C10_scenarioD_depends_on_its_inputs
  {T : Type} {num : Number T} (I1 I2 : Inputs T) :
  agree_on_D I1 I2 ->
  (exists resultD,
     Result.key resultD = ScenarioD /\
     nth_error (Output.results (simulate I1)) 3 = Some resultD /\
     nth_error (Output.results (simulate I2)) 3 = Some resultD) /\
  map (@scenarioD_view T) (Output.yearlyData (simulate I1))
  = map (@scenarioD_view T) (Output.yearlyData (simulate I2)).
Proof.
  intros agree. split.
  - exists {| Result.key := ScenarioD; Result.npv := npvD I1;
              Result.terminal := terminalD I1 |}.
    split; [reflexivity|]. split; [reflexivity|].
    cbn [simulate Output.results nth_error].
    now rewrite (scenarioD_npv agree), (scenarioD_terminal agree).
  - exact (scenarioD_rows agree).
Qed.

(** C10 at [defaultInputs] and [zeroTermInputs], which differ in the down
    payment and the loan term. *)
Lemma C10_scenarioD_depends_on_its_inputs_witness :
  (exists resultD,
     Result.key resultD = ScenarioD /\
     nth_error (Output.results (simulate (T:=float) defaultInputs)) 3 = Some resultD /\
     nth_error (Output.results (simulate (T:=float) zeroTermInputs)) 3 = Some resultD) /\
  map (@scenarioD_view float) (Output.yearlyData (simulate defaultInputs))
  = map (@scenarioD_view float) (Output.yearlyData (simulate zeroTermInputs)).
Proof.
  apply (@C10_scenarioD_depends_on_its_inputs float F_Number
           defaultInputs zeroTermInputs).
  repeat split.
Defined.

(** ** Further properties of the engine *)

(** *** [npv], [growAnnual] and the sale proceeds *)

Lemma total_snoc (l : list R) (x : R) : total (l ++ [x]) = total l + x.
Proof.
  unfold total. induction l as [|a l IH]; cbn [app fold_right]; [lra|].
  rewrite IH. lra.
Qed.

Lemma npv_snoc_R (l : list R) (x d : R) :
  npv (l ++ [x]) d = npv l d + x / (1 + d / 100) ^ length l.
Proof.
  rewrite npv_snoc, pct_R.
  cbv beta iota zeta delta [lit add div pow R_Number]. now rewrite <- pow_powerRZ.
Qed.

(** X1.  At a discount rate of 0% the net present value of a cash-flow
    array is the plain sum of its entries. *)
Theorem X1_npv_at_zero_rate (cashflows : list R) :
  npv cashflows 0 = total cashflows.
Proof.
  induction cashflows as [|x l IH] using rev_ind; [reflexivity|].
  rewrite npv_snoc_R, total_snoc, IH.
  replace (1 + 0 / 100) with 1 by lra. rewrite pow1. lra.
Qed.

(** X2.  Net present value composes over concatenation: the flows that
    follow the first [k] are valued on their own and discounted by
    [(1 + r)^k] (r the discount rate as a fraction, other than -1). *)
Theorem X2_npv_of_concatenation (early late : list R) (d : R) :
  1 + d / 100 <> 0 ->
  npv (early ++ late) d = npv early d + npv late d / (1 + d / 100) ^ length early.
Proof.
  intros Hd. induction late as [|x late IH] using rev_ind.
  - rewrite app_nil_r. change (npv (@nil R) d) with 0. unfold Rdiv. ring.
  - rewrite app_assoc, !npv_snoc_R, IH, length_app, pow_add.
    field. split; apply pow_nonzero; exact Hd.
Qed.

(** X2 on two small arrays at 10%. *)
Lemma X2_npv_of_concatenation_witness :
  npv ([1; 2] ++ [3]) 10 = npv [1; 2] 10 + npv [3] 10 / (1 + 10 / 100) ^ length [1; 2].
Proof.
  apply (X2_npv_of_concatenation [1; 2] [3] (d := 10)). lra.
Defined.

(** X3.  Growing a value one year at a time, [n] times, is growing it over
    [n] years at once, that is multiplying it by [(1 + rate/100)^n]; at a
    rate of 0% the value is unchanged over any number of years. *)
Theorem X3_growAnnual_compounds (value ratePct : R) (n : nat) :
  Nat.iter n (fun v => growAnnual v ratePct 1) value
  = growAnnual value ratePct (Z.of_nat n) /\
  growAnnual value ratePct (Z.of_nat n) = value * (1 + ratePct / 100) ^ n /\
  (forall years : Z, growAnnual value 0 years = value).
Proof.
  assert (E : forall k, growAnnual value ratePct (Z.of_nat k)
                        = value * (1 + ratePct / 100) ^ k).
  { intros k. unfold growAnnual. rewrite pct_R.
    cbv beta iota zeta delta [lit add mul div pow R_Number].
    now rewrite <- pow_powerRZ. }
  split; [|split].
  - induction n as [|n IH].
    + rewrite E. cbn. ring.
    + rewrite Nat.iter_succ, IH, growAnnual_R, !E. rewrite <- tech_pow_Rmult. ring.
  - apply E.
  - intros years. unfold growAnnual. rewrite pct_R.
    cbv beta iota zeta delta [lit add mul div pow R_Number].
    replace (1 + 0 / 100) with 1 by lra. rewrite powerRZ_R1. ring.
Qed.

(** X4.  The capital-gains tax is charged on a positive equity only: a sale
    under water (equity before tax not above zero) nets that equity, with
    no tax, and otherwise the proceeds are the equity less the tax rate's
    share of it; with a rate between 0% and 100% the proceeds lie between
    zero and the equity, or are the negative equity itself. *)
Theorem X4_tax_on_positive_equity_only (I : Inputs R) :
  let equity :=
    currentHomeValue I - currentMortgageBalance I
    - currentHomeValue I * (sellingCostsPct I / 100) in
  (equity <= 0 -> netProceeds I = equity) /\
  (0 <= equity -> netProceeds I = equity * (1 - capGainsTaxPct I / 100)) /\
  (0 <= capGainsTaxPct I <= 100 -> Rmin 0 equity <= netProceeds I <= equity).
Proof.
  intros equity.
  assert (E : netProceeds I = equity - Rmax 0 equity * (capGainsTaxPct I / 100))
    by reflexivity.
  rewrite E. unfold Rmax, Rmin.
  destruct (Rle_dec 0 equity) as [Hpos|Hneg].
  - split.
    { intros H. assert (Hz : equity = 0) by lra. rewrite Hz. lra. }
    split; [intros _; unfold Rdiv; ring|].
    intros [H0 H100].
    assert (0 <= equity * (capGainsTaxPct I / 100) <= equity) by nra. lra.
  - split; [intros; lra|]. split; [intros; lra|]. intros _. lra.
Qed.

(** *** Year by year: scenarios B and D *)

(** Reads the interface at [R_Number], leaving the instance folded where it
    is an argument. *)
Ltac real_cbn :=
  cbn [lit epsilon add sub mul div neg max min pow eqb leb ltb R_Number] in *.

Lemma Forall2_nth_error {A B : Type} (Q : A -> B -> Prop) (l : list A) (l' : list B) :
  Forall2 Q l l' ->
  forall i x, nth_error l i = Some x -> exists y, nth_error l' i = Some y /\ Q x y.
Proof.
  induction 1 as [|a b l l' Hab _ IH]; intros [|i] x Hx; cbn in Hx |- *;
    try discriminate.
  - injection Hx as <-. now exists b.
  - now apply IH.
Qed.

Lemma Forall2_seq_nth {A : Type} (Q : A -> nat -> Prop) (l : list A) (n i : nat) (x : A) :
  Forall2 Q l (seq 0 n) -> nth_error l i = Some x -> Q x i.
Proof.
  intros HF Hx. destruct (Forall2_nth_error HF _ Hx) as (j & Hj & HQ).
  rewrite nth_error_seq in Hj. destruct (i <? n)%nat; [|discriminate].
  cbn in Hj. now injection Hj as <-.
Qed.

Lemma last_field_seq (g : nat -> R) (n : nat) :
  last_field_or_zero (map g (seq 0 (S n))) (fun x => x) = g n.
Proof.
  rewrite seq_S, map_app. cbn [map Nat.add].
  unfold last_field_or_zero. now rewrite at_last_snoc.
Qed.

Section YearByYear.

Variable I : Inputs R.

Local Abbreviation N := (Z.to_nat (years I)).
Local Abbreviation rows := (yearlyData (finalState I)).

(** The yearly interest lies between nothing and the interest of twelve
    months on the opening balance. *)
Lemma amortizeMonths_interest (months : nat) :
  0 <= mortgageRatePct I -> (0 < mortgageYears I)%Z ->
  forall b interestPaidYear,
    0 <= b <= mortgagePrincipalB I ->
    interestPaidYear <= snd (amortizeMonths I months b interestPaidYear)
    <= interestPaidYear + INR months * (b * monthlyMortgageRate I).
Proof.
  intros Hrate Hterm.
  destruct (payment_covers_interest I Hrate Hterm) as [Hr Hpay].
  induction months as [|months IH]; intros b ipy Hb.
  - cbn [amortizeMonths snd INR]. lra.
  - pose proof (month_step_bounds Hr Hpay Hb) as Hstep.
    rewrite S_INR. cbn [amortizeMonths]. real_cbn.
    set (b' := b - Rmin (mortgagePayment I - b * monthlyMortgageRate I) b) in *.
    assert (H0 : 0 <= b * monthlyMortgageRate I) by nra.
    assert (Hm : 0 <= INR months) by apply pos_INR.
    destruct (Rleb b' _).
    + cbn [snd]. nra.
    + assert (Hb' : 0 <= b' <= mortgagePrincipalB I) by lra.
      specialize (IH b' (ipy + b * monthlyMortgageRate I) Hb').
      assert (b' * monthlyMortgageRate I <= b * monthlyMortgageRate I) by nra.
      nra.
Qed.

(** Scenario D, row by row. *)
Lemma scenarioD_closed_form :
  map (@Snapshot.keepHomeValue R) rows
  = map (fun i => currentHomeValue I * (1 + currentHomeAppreciationPct I / 100) ^ S i)
        (seq 0 N) /\
  Forall (fun row =>
            Snapshot.outD row
            = keepPropertyTaxAnnual I + keepInsuranceAnnual I + keepHoaMonthly I * 12
              + keepExtraMaintAnnual I /\
            Snapshot.netWorthD row = Snapshot.keepHomeValue row - Snapshot.outD row)
         rows.
Proof.
  apply (finalState_invariant I
    (fun n s =>
       keepHomeValue s
       = currentHomeValue I * (1 + currentHomeAppreciationPct I / 100) ^ n /\
       map (@Snapshot.keepHomeValue R) (yearlyData s)
       = map (fun i => currentHomeValue I
                       * (1 + currentHomeAppreciationPct I / 100) ^ S i) (seq 0 n) /\
       Forall (fun row =>
            Snapshot.outD row
            = keepPropertyTaxAnnual I + keepInsuranceAnnual I + keepHoaMonthly I * 12
              + keepExtraMaintAnnual I /\
            Snapshot.netWorthD row = Snapshot.keepHomeValue row - Snapshot.outD row)
         (yearlyData s))).
  - cbn [initialState keepHomeValue yearlyData map seq].
    split; [ring|]. split; [reflexivity|constructor].
  - intros n s (Hk & Hm & HF). cbn [yearBody keepHomeValue yearlyData].
    rewrite growAnnual_R, Hk. split; [|split].
    + rewrite <- tech_pow_Rmult. ring.
    + rewrite map_app, seq_S, map_app, Hm. cbn [map Snapshot.keepHomeValue Nat.add].
      do 2 f_equal. rewrite <- (tech_pow_Rmult _ n). ring.
    + apply Forall_app. split; [exact HF|]. constructor; [|constructor].
      cbn. split; reflexivity.
Qed.

(** Scenario B, row by row: the home and the invested balance compound, the
    net worth charges the balance and the costs of the year, and the
    costs of the year are the carrying costs on the home value at the
    start of the year plus the interest of the year. *)
Lemma scenarioB_closed_form :
  0 <= mortgageRatePct I -> (0 < mortgageYears I)%Z ->
  let carrying (i : nat) :=
    smallerHomePrice I * (1 + homeAppreciationPct I / 100) ^ i * (propertyTaxPct I / 100)
    + smallerHomePrice I * (1 + homeAppreciationPct I / 100) ^ i * (maintenancePct I / 100)
    + insuranceAnnual I + hoaMonthly I * 12 in
  map (@Snapshot.homeValueB R) rows
  = map (fun i => smallerHomePrice I * (1 + homeAppreciationPct I / 100) ^ S i)
        (seq 0 N) /\
  map (@Snapshot.investB R) rows
  = map (fun i => (netProceeds I - dpB I) * (investShareB I / 100)
                  * (1 + investNetRate I / 100) ^ S i) (seq 0 N) /\
  Forall (fun row =>
            Snapshot.netWorthB row
            = Snapshot.investB row + Snapshot.homeValueB row
              - Snapshot.remainingPrincipal row - Snapshot.homeCostsB row) rows /\
  Forall2 (fun row i =>
             carrying i <= Snapshot.homeCostsB row
             <= carrying i + 12 * (mortgagePrincipalB I * monthlyMortgageRate I))
          rows (seq 0 N).
Proof.
  intros Hrate Hterm carrying.
  destruct (payment_covers_interest I Hrate Hterm) as [Hr _].
  pose proof (mortgagePrincipalB_nonneg I) as HP.
  enough (H :
    0 <= remainingPrincipal (finalState I) <= mortgagePrincipalB I /\
    (homeValueB (finalState I)
     = smallerHomePrice I * (1 + homeAppreciationPct I / 100) ^ N /\
     investB (finalState I)
     = (netProceeds I - dpB I) * (investShareB I / 100)
       * (1 + investNetRate I / 100) ^ N) /\
    map (@Snapshot.homeValueB R) rows
    = map (fun i => smallerHomePrice I * (1 + homeAppreciationPct I / 100) ^ S i)
          (seq 0 N) /\
    map (@Snapshot.investB R) rows
    = map (fun i => (netProceeds I - dpB I) * (investShareB I / 100)
                    * (1 + investNetRate I / 100) ^ S i) (seq 0 N) /\
    Forall (fun row =>
              Snapshot.netWorthB row
              = Snapshot.investB row + Snapshot.homeValueB row
                - Snapshot.remainingPrincipal row - Snapshot.homeCostsB row) rows /\
    Forall2 (fun row i =>
               carrying i <= Snapshot.homeCostsB row
               <= carrying i + 12 * (mortgagePrincipalB I * monthlyMortgageRate I))
            rows (seq 0 N)) by tauto.
  apply (finalState_invariant I
    (fun n s =>
       0 <= remainingPrincipal s <= mortgagePrincipalB I /\
       (homeValueB s = smallerHomePrice I * (1 + homeAppreciationPct I / 100) ^ n /\
        investB s = (netProceeds I - dpB I) * (investShareB I / 100)
                    * (1 + investNetRate I / 100) ^ n) /\
       map (@Snapshot.homeValueB R) (yearlyData s)
       = map (fun i => smallerHomePrice I * (1 + homeAppreciationPct I / 100) ^ S i)
             (seq 0 n) /\
       map (@Snapshot.investB R) (yearlyData s)
       = map (fun i => (netProceeds I - dpB I) * (investShareB I / 100)
                       * (1 + investNetRate I / 100) ^ S i) (seq 0 n) /\
       Forall (fun row =>
                 Snapshot.netWorthB row
                 = Snapshot.investB row + Snapshot.homeValueB row
                   - Snapshot.remainingPrincipal row - Snapshot.homeCostsB row)
              (yearlyData s) /\
       Forall2 (fun row i =>
                  carrying i <= Snapshot.homeCostsB row
                  <= carrying i + 12 * (mortgagePrincipalB I * monthlyMortgageRate I))
               (yearlyData s) (seq 0 n))).
  - cbn [initialState remainingPrincipal homeValueB investB yearlyData map seq].
    rewrite !pct_R. real_cbn.
    split; [lra|]. split; [split; ring|]. repeat split; constructor.
  - intros n s (Hb & [Hh Hi] & Hmh & Hmi & HF & HF2).
    pose proof (amortizeMonths_bounds I Hrate Hterm 12 (lit 0) Hb) as Hrem.
    pose proof (amortizeMonths_interest 12 Hrate Hterm (lit 0) Hb) as Hint.
    cbn [yearBody remainingPrincipal homeValueB investB yearlyData].
    set (remaining' := fst (amortizeMonths I 12 (remainingPrincipal s) (lit 0))) in *.
    set (interest := snd (amortizeMonths I 12 (remainingPrincipal s) (lit 0))) in *.
    rewrite !growAnnual_R, Hh, Hi.
    split; [lra|]. split; [split; rewrite <- tech_pow_Rmult; ring|].
    split; [|split; [|split]].
    + rewrite map_app, seq_S, map_app, Hmh. cbn [map Snapshot.homeValueB Nat.add].
      do 2 f_equal. rewrite <- (tech_pow_Rmult _ n). ring.
    + rewrite map_app, seq_S, map_app, Hmi. cbn [map Snapshot.investB Nat.add].
      do 2 f_equal. rewrite <- (tech_pow_Rmult _ n). ring.
    + apply Forall_app. split; [exact HF|]. constructor; [|constructor].
      cbn [Snapshot.netWorthB Snapshot.investB Snapshot.homeValueB
             Snapshot.remainingPrincipal Snapshot.homeCostsB].
      real_cbn. rewrite Rmax_right by lra. reflexivity.
    + rewrite seq_S. apply Forall2_app; [exact HF2|]. constructor; [|constructor].
      cbn [Snapshot.homeCostsB Nat.add]. rewrite !pct_R. real_cbn.
      unfold carrying.
      assert (remainingPrincipal s * monthlyMortgageRate I
              <= mortgagePrincipalB I * monthlyMortgageRate I)
        by (apply Rmult_le_compat_r; lra).
      assert (E12 : INR 12 = 12) by (cbn; lra).
      rewrite E12 in Hint. lra.
Qed.

Lemma last_field_of_map {A : Type} (f : A -> R) (l : list A) :
  last_field_or_zero l f = last_field_or_zero (map f l) (fun x => x).
Proof.
  symmetry. exact (last_field_map f l (fun x => x)).
Qed.

(** The snapshot balances are the year-end balances of the loop. *)
Lemma snapshot_balances :
  0 <= mortgageRatePct I -> (0 < mortgageYears I)%Z ->
  map (@Snapshot.remainingPrincipal R) rows
  = yearEndBalances I N (mortgagePrincipalB I).
Proof.
  intros Hrate Hterm.
  destruct (remainingPrincipal_trace I) as (_ & _ & Hm). cbv zeta in Hm.
  rewrite Hm.
  exact (descends_from_max0 _ _ (yearEndBalances_descend I Hrate Hterm N)).
Qed.

(** With at least one year, the terminal values are read off the last
    snapshot. *)
Lemma terminal_values_closed_form :
  0 <= mortgageRatePct I -> (0 < mortgageYears I)%Z -> (1 <= years I)%Z ->
  let g := 1 + investNetRate I / 100 in
  terminalA I = netProceeds I * (investShareA I / 100) * g ^ N /\
  terminalB I
  = smallerHomePrice I * (1 + homeAppreciationPct I / 100) ^ N
    - remainingPrincipal (finalState I)
    + (netProceeds I - dpB I) * (investShareB I / 100) * g ^ N /\
  terminalC I = netProceeds I * (investShareC I / 100) * g ^ N + cashC I /\
  terminalD I = currentHomeValue I * (1 + currentHomeAppreciationPct I / 100) ^ N.
Proof.
  intros Hrate Hterm Hyears g.
  destruct (invested_balances I) as (HA & HC & _). cbv zeta in HA, HC.
  destruct (scenarioB_closed_form Hrate Hterm) as (Hh & Hi & _ & _).
  destruct scenarioD_closed_form as (Hd & _).
  pose proof (snapshot_balances Hrate Hterm) as Hp.
  destruct (remainingPrincipal_trace I) as (_ & Hlast & _). cbv zeta in Hlast.
  unfold terminalA, terminalB, terminalC, terminalD.
  rewrite (last_field_of_map (@Snapshot.investA R)), HA.
  rewrite (last_field_of_map (@Snapshot.investC R)), HC.
  rewrite (last_field_of_map (@Snapshot.homeValueB R)), Hh.
  rewrite (last_field_of_map (@Snapshot.investB R)), Hi.
  rewrite (last_field_of_map (@Snapshot.keepHomeValue R)), Hd.
  rewrite (last_field_of_map (@Snapshot.remainingPrincipal R)), Hp, Hlast.
  destruct N as [|n] eqn:EN; [lia|].
  rewrite !last_field_seq. cbn [yearEndBalances].
  unfold last_field_or_zero at 1. rewrite at_last_snoc, last_last.
  real_cbn. repeat split; reflexivity.
Qed.

End YearByYear.

(** X5.  Keeping the current home: in every year y of 1..N the home is
    worth [currentHomeValue * (1 + appreciation/100)^y], the outflow is the
    same sum of property tax, insurance, twelve months of HOA and extra
    maintenance, never inflated, and the net worth is the home value less
    that outflow. *)
Theorem X5_keep_home_by_year (I : Inputs R) (y : nat) :
  (1 <= y <= Z.to_nat (years I))%nat ->
  let carrying :=
    keepPropertyTaxAnnual I + keepInsuranceAnnual I + keepHoaMonthly I * 12
    + keepExtraMaintAnnual I in
  let value := currentHomeValue I * (1 + currentHomeAppreciationPct I / 100) ^ y in
  exists row,
    nth_error (Output.yearlyData (simulate I)) (y - 1) = Some row /\
    Snapshot.year row = Z.of_nat y /\
    Snapshot.keepHomeValue row = value /\
    Snapshot.outD row = carrying /\
    Snapshot.netWorthD row = value - carrying.
Proof.
  intros Hy carrying value.
  destruct (row_of_year I Hy) as (row & Hrow & Hyear).
  destruct (scenarioD_closed_form I) as (Hv & HF).
  pose proof (@nth_error_map_seq _ _ _ _ _ _ _ Hv Hrow) as Ev.
  cbv beta in Ev. replace (S (y - 1)) with y in Ev by lia.
  destruct (proj1 (Forall_forall _ _) HF row (nth_error_In _ _ Hrow)) as [Eo Ew].
  exists row. cbn [simulate Output.yearlyData].
  repeat split; try assumption.
  rewrite Ew, Ev, Eo. reflexivity.
Qed.

(** X5 at [defaultInputs], year 2. *)
Lemma X5_keep_home_by_year_witness :
  let I := defaultInputs (T:=R) in
  let carrying :=
    keepPropertyTaxAnnual I + keepInsuranceAnnual I + keepHoaMonthly I * 12
    + keepExtraMaintAnnual I in
  let value := currentHomeValue I * (1 + currentHomeAppreciationPct I / 100) ^ 2 in
  exists row,
    nth_error (Output.yearlyData (simulate I)) 1 = Some row /\
    Snapshot.year row = 2%Z /\
    Snapshot.keepHomeValue row = value /\
    Snapshot.outD row = carrying /\
    Snapshot.netWorthD row = value - carrying.
Proof.
  apply (X5_keep_home_by_year (defaultInputs (T:=R)) (y := 2)).
  cbn [defaultInputs inputsWith years]. split; [lia|].
  change (Z.to_nat 15) with 15%nat. lia.
Defined.

(** The home value the loop has reached after [n] years, in closed form. *)
Lemma homeValueAfter_R (I : Inputs R) (n : nat) :
  homeValueAfter I n = smallerHomePrice I * (1 + homeAppreciationPct I / 100) ^ n.
Proof.
  unfold homeValueAfter. induction n as [|n IH]; [cbn; ring|].
  rewrite Nat.iter_succ, IH, growAnnual_R, <- tech_pow_Rmult. ring.
Qed.



Lemma sample_rate_nonneg (d a c : R) (t h : Z) (s : bool) :
  0 <= mortgageRatePct (inputsWith d t s a c h).
Proof.
  cbn [inputsWith mortgageRatePct]. cbv beta iota zeta delta [lit div R_Number]. lra.
Qed.

(** X7.  With a horizon of at least one year (and a non-negative mortgage
    rate and positive term, for B) the terminal values are those of the
    last snapshot: for A the invested share of the proceeds compounded N
    times; for C the same with its own share, plus the cash held; for D the
    current home value appreciated N times; for B the smaller home's value
    appreciated N times, less the principal still owed, plus B's invested
    balance compounded N times. *)
Theorem X7_terminal_values (I : Inputs R) :
  0 <= mortgageRatePct I ->
  (0 < mortgageYears I)%Z ->
  (1 <= years I)%Z ->
  let N := Z.to_nat (years I) in
  let g := 1 + investNetRate I / 100 in
  map (fun res => (Result.key res, Result.terminal res)) (Output.results (simulate I))
  = [ (ScenarioA, netProceeds I * (investShareA I / 100) * g ^ N);
      (ScenarioB,
       smallerHomePrice I * (1 + homeAppreciationPct I / 100) ^ N
       - remainingPrincipal (finalState I)
       + (netProceeds I - dpB I) * (investShareB I / 100) * g ^ N);
      (ScenarioC,
       netProceeds I * (investShareC I / 100) * g ^ N
       + netProceeds I * (1 - investShareC I / 100));
      (ScenarioD,
       currentHomeValue I * (1 + currentHomeAppreciationPct I / 100) ^ N) ].
Proof.
  intros Hrate Hterm Hyears N g.
  destruct (terminal_values_closed_form I Hrate Hterm Hyears) as (HA & HB & HC & HD).
  cbn [simulate Output.results map Result.key Result.terminal].
  rewrite HA, HB, HC, HD. reflexivity.
Qed.

(** X7 at [defaultInputs]. *)
Lemma X7_terminal_values_witness :
  let I := defaultInputs (T:=R) in
  let N := Z.to_nat (years I) in
  let g := 1 + investNetRate I / 100 in
  map (fun res => (Result.key res, Result.terminal res)) (Output.results (simulate I))
  = [ (ScenarioA, netProceeds I * (investShareA I / 100) * g ^ N);
      (ScenarioB,
       smallerHomePrice I * (1 + homeAppreciationPct I / 100) ^ N
       - remainingPrincipal (finalState I)
       + (netProceeds I - dpB I) * (investShareB I / 100) * g ^ N);
      (ScenarioC,
       netProceeds I * (investShareC I / 100) * g ^ N
       + netProceeds I * (1 - investShareC I / 100));
      (ScenarioD,
       currentHomeValue I * (1 + currentHomeAppreciationPct I / 100) ^ N) ].
Proof.
  apply (X7_terminal_values (defaultInputs (T:=R))).
  - apply sample_rate_nonneg.
  - reflexivity.
  - cbn [defaultInputs inputsWith years]. lia.
Defined.

(** *** A home bought without a loan *)

Section NoLoan.

Context {T : Type} {num : Number T}.
Local Open Scope num_scope.
Local Close Scope R_scope.
Variable I : Inputs T.

Hypothesis laws : zeroLaws num.
Hypothesis no_principal : mortgagePrincipalB I = lit 0.
Hypothesis no_payment : mortgagePayment I = lit 0.
Hypothesis no_interest : lit 0 * monthlyMortgageRate I = lit 0.

(** A year of the monthly loop on a zero balance stops after its first
    month, with the balance and the interest still zero. *)
Lemma amortizeMonths_no_loan (months : nat) :
  amortizeMonths I (S months) (lit 0) (lit 0) = (lit 0, lit 0).
Proof.
  destruct laws as (Hsub & Hadd & Hmin & _ & Heps).
  change (amortizeMonths I (S months) (lit 0) (lit 0))
    with (let interest := lit 0 * monthlyMortgageRate I in
          let principalPaid := min (mortgagePayment I - interest) (lit 0) in
          let remaining' := lit 0 - principalPaid in
          let interestPaidYear' := lit 0 + interest in
          if remaining' <=? epsilon then (remaining', interestPaidYear')
          else amortizeMonths I months remaining' interestPaidYear').
  cbv zeta.
  rewrite no_payment, no_interest, Hsub, Hmin, Hsub, Hadd, Heps. reflexivity.
Qed.

Lemma no_loan_rows :
  Forall2 (fun row i =>
             Snapshot.remainingPrincipal row = lit 0 /\
             Snapshot.homeCostsB row
             = lit 0 + homeValueAfter I i * pct (propertyTaxPct I)
               + homeValueAfter I i * pct (maintenancePct I)
               + insuranceAnnual I + hoaMonthly I * lit 12)
          (yearlyData (finalState I)) (seq 0 (Z.to_nat (years I))).
Proof.
  destruct laws as (_ & _ & _ & Hmax & _).
  enough (H : remainingPrincipal (finalState I) = lit 0 /\
              homeValueB (finalState I) = homeValueAfter I (Z.to_nat (years I)) /\
              Forall2 (fun row i =>
                 Snapshot.remainingPrincipal row = lit 0 /\
                 Snapshot.homeCostsB row
                 = lit 0 + homeValueAfter I i * pct (propertyTaxPct I)
                   + homeValueAfter I i * pct (maintenancePct I)
                   + insuranceAnnual I + hoaMonthly I * lit 12)
               (yearlyData (finalState I)) (seq 0 (Z.to_nat (years I)))) by tauto.
  apply (finalState_invariant I
    (fun n s =>
       remainingPrincipal s = lit 0 /\
       homeValueB s = homeValueAfter I n /\
       Forall2 (fun row i =>
                  Snapshot.remainingPrincipal row = lit 0 /\
                  Snapshot.homeCostsB row
                  = lit 0 + homeValueAfter I i * pct (propertyTaxPct I)
                    + homeValueAfter I i * pct (maintenancePct I)
                    + insuranceAnnual I + hoaMonthly I * lit 12)
               (yearlyData s) (seq 0 n))).
  - cbn [initialState remainingPrincipal homeValueB yearlyData seq].
    split; [exact no_principal|]. split; [reflexivity|constructor].
  - intros n s (Hb & Hh & HF).
    cbn [yearBody remainingPrincipal homeValueB yearlyData].
    rewrite Hb, amortizeMonths_no_loan, Hh. cbn [fst snd].
    split; [reflexivity|]. split; [reflexivity|].
    rewrite seq_S. apply Forall2_app; [exact HF|]. constructor; [|constructor].
    cbn [Snapshot.remainingPrincipal Snapshot.homeCostsB Nat.add].
    split; [exact Hmax|reflexivity].
Qed.

End NoLoan.



(** *** What the results do not depend on *)

Section Independence.

Context {T : Type} {num : Number T}.
Local Open Scope num_scope.
Local Close Scope R_scope.

(** Two parameter sets whose loop bodies and initial states agree give the
    same output. *)
Lemma simulate_same_loop (I I' : Inputs T) :
  (forall y s, yearBody I' y s = yearBody I y s) ->
  initialState I' = initialState I ->
  years I' = years I ->
  discountRatePct I' = discountRatePct I ->
  netProceeds I' = netProceeds I ->
  cashC I' = cashC I ->
  simulate I' = simulate I.
Proof.
  intros Hbody Hinit Hyears Hrate Hnet Hcash.
  assert (Hloop : forall count y s, yearLoop I' count y s = yearLoop I count y s).
  { induction count as [|count IH]; intros y s; [reflexivity|].
    cbn [yearLoop]. now rewrite Hbody, IH. }
  assert (Hfinal : finalState I' = finalState I).
  { unfold finalState. now rewrite Hloop, Hinit, Hyears. }
  unfold simulate, npvA, npvB, npvC, npvD, terminalA, terminalB, terminalC, terminalD.
  now rewrite Hfinal, Hrate, Hnet, Hcash.
Qed.

Lemma unselected_manual_rate (v : T) (I : Inputs T) :
  useIVV I = true -> simulate (withInvestReturnPct v I) = simulate I.
Proof.
  intros Hivv.
  assert (Hnet : investNetRate (withInvestReturnPct v I) = investNetRate I).
  { unfold investNetRate, investGrossRate, baseline.
    cbn [withInvestReturnPct useIVV ivvAnnualReturnPct investReturnPct
           returnAdjustPct investTaxDragPct].
    now rewrite Hivv. }
  assert (Hmonths : forall months b interestPaidYear,
             amortizeMonths (withInvestReturnPct v I) months b interestPaidYear
             = amortizeMonths I months b interestPaidYear).
  { induction months as [|months IH]; intros b ipy; [reflexivity|].
    cbn [amortizeMonths]. rewrite !IH. reflexivity. }
  apply simulate_same_loop.
  - intros y s. unfold yearBody. rewrite Hnet. rewrite Hmonths. reflexivity.
  - reflexivity.
  - reflexivity.
  - reflexivity.
  - reflexivity.
  - reflexivity.
Qed.

Lemma unselected_index_rate (v : T) (I : Inputs T) :
  useIVV I = false -> simulate (withIvvAnnualReturnPct v I) = simulate I.
Proof.
  intros Hivv.
  assert (Hnet : investNetRate (withIvvAnnualReturnPct v I) = investNetRate I).
  { unfold investNetRate, investGrossRate, baseline.
    cbn [withIvvAnnualReturnPct useIVV ivvAnnualReturnPct investReturnPct
           returnAdjustPct investTaxDragPct].
    now rewrite Hivv. }
  assert (Hmonths : forall months b interestPaidYear,
             amortizeMonths (withIvvAnnualReturnPct v I) months b interestPaidYear
             = amortizeMonths I months b interestPaidYear).
  { induction months as [|months IH]; intros b ipy; [reflexivity|].
    cbn [amortizeMonths]. rewrite !IH. reflexivity. }
  apply simulate_same_loop.
  - intros y s. unfold yearBody. rewrite Hnet. rewrite Hmonths. reflexivity.
  - reflexivity.
  - reflexivity.
  - reflexivity.
  - reflexivity.
  - reflexivity.
Qed.

(** Storage figures, with storage disabled. *)
Lemma yearBody_without_storage (monthly inflation : T) (I : Inputs T) (y : Z) :
  includeStorage I = false ->
  forall s s',
    withoutStorage (lit 0) s' = withoutStorage (lit 0) s ->
    withoutStorage (lit 0) (yearBody (withStorage monthly inflation I) y s')
    = withoutStorage (lit 0) (yearBody I y s).
Proof.
  intros Hoff.
  assert (Hmonths : forall months b interestPaidYear,
             amortizeMonths (withStorage monthly inflation I) months b interestPaidYear
             = amortizeMonths I months b interestPaidYear).
  { induction months as [|months IH]; intros b ipy; [reflexivity|].
    cbn [amortizeMonths]. rewrite !IH. reflexivity. }
  intros [] []. unfold withoutStorage at 1 2.
  cbn [remainingPrincipal rent storage homeValueB keepHomeValue investA investB
         investC yearlyData cashflowsA cashflowsB cashflowsC cashflowsD].
  intros E. injection E as -> -> -> -> -> -> -> -> -> -> -> ->.
  unfold yearBody, withoutStorage.
  cbn [remainingPrincipal rent storage homeValueB keepHomeValue investA investB
         investC yearlyData cashflowsA cashflowsB cashflowsC cashflowsD].
  rewrite !Hmonths.
  change (includeStorage (withStorage monthly inflation I)) with (includeStorage I).
  rewrite Hoff. reflexivity.
Qed.

End Independence.

(** X10.  Of the two baseline returns only the one [useIVV] selects is
    read: overwriting the other one, the manual rate when the index is
    tracked or the index rate when it is not, leaves the whole output as it
    was. *)
Theorem X10_unselected_baseline_is_ignored
  {T : Type} {num : Number T} (I : Inputs T) (v : T) :
  simulate (if useIVV I then withInvestReturnPct v I else withIvvAnnualReturnPct v I)
  = simulate I.
Proof.
  destruct (useIVV I) eqn:E.
  - now apply unselected_manual_rate.
  - now apply unselected_index_rate.
Qed.

(** X11.  With storage disabled the storage figures are not read: whatever
    the monthly storage cost and its inflation are set to, the whole output
    is the same. *)
Theorem X11_disabled_storage_is_ignored
  {T : Type} {num : Number T} (I : Inputs T) (monthly inflation : T) :
  includeStorage I = false ->
  simulate (withStorage monthly inflation I) = simulate I.
Proof.
  intros Hoff.
  assert (Hloop : forall count y s s',
             withoutStorage (lit 0) s' = withoutStorage (lit 0) s ->
             withoutStorage (lit 0) (yearLoop (withStorage monthly inflation I) count y s')
             = withoutStorage (lit 0) (yearLoop I count y s)).
  { induction count as [|count IH]; intros y s s' E; [exact E|].
    cbn [yearLoop]. apply IH. now apply yearBody_without_storage. }
  assert (Hfinal : withoutStorage (lit 0) (finalState (withStorage monthly inflation I))
                   = withoutStorage (lit 0) (finalState I)).
  { unfold finalState. apply Hloop. reflexivity. }
  pose proof (f_equal (@yearlyData T) Hfinal) as Hrows.
  pose proof (f_equal (@cashflowsA T) Hfinal) as HA.
  pose proof (f_equal (@cashflowsB T) Hfinal) as HB.
  pose proof (f_equal (@cashflowsC T) Hfinal) as HC.
  pose proof (f_equal (@cashflowsD T) Hfinal) as HD.
  cbn [withoutStorage yearlyData cashflowsA cashflowsB cashflowsC cashflowsD]
    in Hrows, HA, HB, HC, HD.
  unfold simulate, npvA, npvB, npvC, npvD, terminalA, terminalB, terminalC, terminalD.
  rewrite Hrows, HA, HB, HC, HD. reflexivity.
Qed.

(** X11 on binary64, at the defaults with storage disabled and the storage
    figures replaced by NaN. *)
Lemma X11_disabled_storage_is_ignored_witness :
  simulate (withStorage PrimFloat.nan PrimFloat.nan (equalShareInputs (T:=float)))
  = simulate equalShareInputs.
Proof.
  apply (@X11_disabled_storage_is_ignored float F_Number equalShareInputs).
  reflexivity.
Defined.

(** *** The rent scenarios read only their own inputs *)

Section RentScenarios.

Context {T : Type} {num : Number T}.
Local Open Scope num_scope.
Local Close Scope R_scope.

Variables I1 I2 : Inputs T.
Hypothesis agree : agree_on_rent_scenarios I1 I2.

Lemma rent_netProceeds : netProceeds I1 = netProceeds I2.
Proof.
  destruct agree as ((Hv & Hb & Hs & Hc) & _).
  unfold netProceeds, capGainsTax, equityBeforeTax, sellingCosts, grossSale.
  now rewrite Hv, Hb, Hs, Hc.
Qed.

Lemma rent_investNetRate : investNetRate I1 = investNetRate I2.
Proof.
  destruct agree as (_ & _ & (Hu & Hi & Hm & Ha & Hd) & _).
  unfold investNetRate, investGrossRate, baseline.
  now rewrite Hu, Hi, Hm, Ha, Hd.
Qed.

Lemma rent_cashC : cashC I1 = cashC I2.
Proof.
  destruct agree as (_ & _ & _ & (_ & HC & _ & _)).
  unfold cashC. now rewrite rent_netProceeds, HC.
Qed.

Lemma yearBody_rentScenarios (y : Z) (s1 s2 : LoopState T) :
  rentScenarios_state s1 = rentScenarios_state s2 ->
  rentScenarios_state (yearBody I1 y s1) = rentScenarios_state (yearBody I2 y s2).
Proof.
  destruct agree as (_ & (_ & Hri & Hinc & _ & Hsi) & _ & _).
  unfold rentScenarios_state. intros E.
  injection E as Er Es Ea Ec Eca Ecc Erows.
  cbn [yearBody rent storage investA investC cashflowsA cashflowsC yearlyData].
  rewrite !map_app.
  cbn [map rentScenarios_view Snapshot.year Snapshot.investA Snapshot.outA
         Snapshot.netWorthA Snapshot.investC Snapshot.outC Snapshot.netWorthC].
  now rewrite Er, Es, Ea, Ec, Eca, Ecc, Erows, Hri, Hinc, Hsi,
    rent_investNetRate, rent_cashC.
Qed.

Lemma finalState_rentScenarios :
  rentScenarios_state (finalState I1) = rentScenarios_state (finalState I2).
Proof.
  assert (Hloop : forall count y s1 s2,
             rentScenarios_state s1 = rentScenarios_state s2 ->
             rentScenarios_state (yearLoop I1 count y s1)
             = rentScenarios_state (yearLoop I2 count y s2)).
  { induction count as [|count IH]; intros y s1 s2 E; [exact E|].
    cbn [yearLoop]. apply IH. now apply yearBody_rentScenarios. }
  destruct agree as (_ & (Hr & _ & _ & Hs & _) & _ & (HA & HC & Hy & _)).
  unfold finalState. rewrite Hy. apply Hloop.
  unfold rentScenarios_state.
  cbn [initialState rent storage investA investC cashflowsA cashflowsC yearlyData map].
  now rewrite Hr, Hs, HA, HC, rent_netProceeds.
Qed.

Lemma rentScenarios_results :
  map (@rentScenarios_view T) (yearlyData (finalState I1))
  = map (@rentScenarios_view T) (yearlyData (finalState I2)) /\
  (terminalA I1 = terminalA I2 /\ npvA I1 = npvA I2) /\
  (terminalC I1 = terminalC I2 /\ npvC I1 = npvC I2).
Proof.
  pose proof finalState_rentScenarios as E. unfold rentScenarios_state in E.
  injection E as _ _ _ _ Eca Ecc Erows.
  destruct agree as (_ & _ & _ & (_ & _ & _ & Hd)).
  assert (EA : forall I, terminalA I
                 = last_field_or_zero
                     (map (@rentScenarios_view T) (yearlyData (finalState I)))
                     (fun v => fst (fst (snd (fst v))))).
  { intros I. symmetry.
    exact (last_field_map (@rentScenarios_view T) (yearlyData (finalState I))
             (fun v => fst (fst (snd (fst v))))). }
  assert (EC : forall I, last_field_or_zero (yearlyData (finalState I))
                           (@Snapshot.investC T)
                 = last_field_or_zero
                     (map (@rentScenarios_view T) (yearlyData (finalState I)))
                     (fun v => fst (fst (snd v)))).
  { intros I. symmetry.
    exact (last_field_map (@rentScenarios_view T) (yearlyData (finalState I))
             (fun v => fst (fst (snd v)))). }
  assert (HtA : terminalA I1 = terminalA I2) by now rewrite !EA, Erows.
  assert (HtC : terminalC I1 = terminalC I2).
  { unfold terminalC. now rewrite !EC, Erows, rent_cashC. }
  split; [exact Erows|]. unfold npvA, npvC.
  now rewrite Eca, Ecc, HtA, HtC, Hd.
Qed.

End RentScenarios.

(** X12.  The two rent scenarios read the sale inputs, the rent and storage
    inputs, the return assumptions, their own invested shares, the horizon
    and the discount rate, and nothing else: two parameter sets that agree
    on those give the same net proceeds, the same results for A and for C,
    and the same invested balance, outflow and net worth of A and of C in
    every year, whatever the purchase and keep-home inputs are. *)
Theorem X12_rent_scenarios_depend_on_their_inputs
  {T : Type} {num : Number T} (I1 I2 : Inputs T) :
  agree_on_rent_scenarios I1 I2 ->
  Output.netProceeds (simulate I1) = Output.netProceeds (simulate I2) /\
  nth_error (Output.results (simulate I1)) 0 = nth_error (Output.results (simulate I2)) 0 /\
  nth_error (Output.results (simulate I1)) 2 = nth_error (Output.results (simulate I2)) 2 /\
  map (@rentScenarios_view T) (Output.yearlyData (simulate I1))
  = map (@rentScenarios_view T) (Output.yearlyData (simulate I2)).
Proof.
  intros agree.
  destruct (rentScenarios_results agree) as (Hrows & [HtA HnA] & [HtC HnC]).
  cbn [simulate Output.netProceeds Output.results Output.yearlyData nth_error].
  rewrite (rent_netProceeds agree), HtA, HnA, HtC, HnC.
  repeat split. exact Hrows.
Qed.

(** X12 on binary64, at [defaultInputs] and [zeroTermInputs], which differ in
    the down payment and the loan term. *)
Lemma X12_rent_scenarios_depend_on_their_inputs_witness :
  let I1 := defaultInputs (T:=float) in
  let I2 := zeroTermInputs (T:=float) in
  Output.netProceeds (simulate I1) = Output.netProceeds (simulate I2) /\
  nth_error (Output.results (simulate I1)) 0 = nth_error (Output.results (simulate I2)) 0 /\
  nth_error (Output.results (simulate I1)) 2 = nth_error (Output.results (simulate I2)) 2 /\
  map (@rentScenarios_view float) (Output.yearlyData (simulate I1))
  = map (@rentScenarios_view float) (Output.yearlyData (simulate I2)).
Proof.
  apply (@X12_rent_scenarios_depend_on_their_inputs float F_Number
           defaultInputs zeroTermInputs).
  repeat split.
Defined.

(** *** The highlighted card *)

(** X13.  Exactly one of the four scenario cards is highlighted, and it is
    the card of the best scenario: the highlight flag is set at the
    position of the selected result and nowhere else. *)
Theorem X13_exactly_one_card_highlighted (I : Inputs R) :
  let results := Output.results (simulate I) in
  exists i selected,
    best results = Some selected /\
    nth_error results i = Some selected /\
    length (highlights results) = 4%nat /\
    forall j, nth_error (highlights results) j = Some true <-> j = i.
Proof.
  intros results.
  destruct (@best_first_maximum results ltac:(discriminate))
    as (i & r & Hbest & Hi & _).
  exists i, r. split; [exact Hbest|]. split; [exact Hi|]. split; [reflexivity|].
  unfold highlights. rewrite Hbest. subst results.
  cbn [simulate Output.results map Result.key] in Hi |- *.
  destruct i as [|[|[|[|i]]]]; cbn [nth_error] in Hi;
    try (destruct i; discriminate);
    injection Hi as <-; cbn [Result.key sameKey];
    intros [|[|[|[|j]]]]; cbn [nth_error];
    (split; intros H; try reflexivity; try discriminate; try lia);
    destruct j; discriminate.
Qed.

(** *** The size of the payment, and net present value in its flows *)

(** X14.  For a principal that is zero or between a cent and 10^12, a rate
    that is zero or between 0.01 % and 100 %, and a term of 1 to 100 years,
    of n months, the fixed payment lies between the straight-line payment
    [P / n] and the straight-line payment plus one month of interest on the
    whole principal, [P / n + P * r]. *)
Theorem X14_payment_bounds (P annualRatePct : R) (years : Z) :
  P = 0 \/ 1 / 100 <= P <= 1000000000000 ->
  zeroOrPricedRate annualRatePct -> annualRatePct <= 100 ->
  (0 < years <= 100)%Z ->
  let r := annualRatePct / 100 / 12 in
  let n := IZR (years * 12) in
  P / n <= amortizationPayment P annualRatePct years <= P / n + P * r.
Proof.
  intros HP' Hpriced _ [Hy _] r n.
  assert (HP : 0 <= P) by lra.
  pose proof (zeroOrPricedRate_nonneg Hpriced) as Ha.
  assert (Hn : 0 < n) by (apply IZR_lt; lia).
  assert (Hr : 0 <= r) by (subst r; lra).
  assert (Hs : 0 <= P / n) by (apply Rmult_le_pos; [lra|apply Rlt_le, Rinv_0_lt_compat, Hn]).
  assert (HPr : 0 <= P * r) by (apply Rmult_le_pos; lra).
  unfold amortizationPayment. rewrite pct_R.
  cbn [lit sub add mul div pow eqb R_Number]. fold r. fold n.
  destruct (Reqb r 0) eqn:E; [lra|].
  assert (Hr' : 0 < r).
  { destruct Hr as [Hr|Hr]; [exact Hr|]. symmetry in Hr.
    apply Reqb_true_iff in Hr. congruence. }
  set (k := Z.to_nat (years * 12)).
  assert (Hk : INR k = n).
  { subst k n. rewrite INR_IZR_INZ, Z2Nat.id by lia. reflexivity. }
  rewrite powerRZ_neg'. rewrite <- (Z2Nat.id (years * 12)) by lia.
  rewrite <- pow_powerRZ. fold k.
  destruct (compound_bounds k Hr) as [B1 B2]. rewrite Hk in B1, B2.
  set (q := (1 + r) ^ k) in *.
  assert (Hq : 1 < q) by nra.
  assert (Hiq : / q * q = 1) by (apply Rinv_l; lra).
  assert (Hiq0 : 0 < / q) by (apply Rinv_0_lt_compat; lra).
  set (d := 1 - / q).
  assert (Hd : 0 < d) by (subst d; nra).
  assert (Hdq : d * q = q - 1) by (subst d; nra).
  assert (H1 : d <= n * r) by nra.
  assert (H2 : n * r <= d * (1 + n * r)) by nra.
  set (s := P / n) in *.
  assert (Hsn : s * n = P) by (subst s; field; lra).
  set (pay := P * r / d).
  assert (Hpay : pay * d = P * r) by (subst pay; field; lra).
  split.
  - apply (Rmult_le_reg_r d); [exact Hd|]. rewrite Hpay, <- Hsn.
    assert (s * d <= s * (n * r)) by (apply Rmult_le_compat_l; assumption).
    lra.
  - apply (Rmult_le_reg_r d); [exact Hd|]. rewrite Hpay.
    assert (s * (n * r) <= s * (d * (1 + n * r)))
      by (apply Rmult_le_compat_l; assumption).
    rewrite <- Hsn. nra.
Qed.

(** X14 on a loan of 89,000 at 6.5% over 30 years. *)
Lemma X14_payment_bounds_witness :
  89000 / IZR (30 * 12) <= amortizationPayment 89000 (65 / 10) 30
  <= 89000 / IZR (30 * 12) + 89000 * (65 / 10 / 100 / 12).
Proof.
  apply (X14_payment_bounds (P := 89000) (annualRatePct := 65 / 10) (years := 30));
    [right; lra|right; lra|lra|lia].
Defined.

Lemma reduce_from_monotone (a : R) (l l' : list R) :
  0 < a -> Forall2 Rle l l' ->
  forall t acc acc',
    acc <= acc' ->
    reduce_from (fun acc cf t => acc + cf / powerRZ a (Z.of_nat t)) l t acc
    <= reduce_from (fun acc cf t => acc + cf / powerRZ a (Z.of_nat t)) l' t acc'.
Proof.
  intros Ha HF. induction HF as [|x x' l l' Hx _ IH]; intros t acc acc' Hacc;
    cbn [reduce_from]; [exact Hacc|].
  apply IH.
  assert (Hp : 0 < / powerRZ a (Z.of_nat t)).
  { apply Rinv_0_lt_compat. rewrite <- pow_powerRZ. now apply pow_lt. }
  unfold Rdiv.
  assert (x * / powerRZ a (Z.of_nat t) <= x' * / powerRZ a (Z.of_nat t))
    by (apply Rmult_le_compat_r; lra).
  lra.
Qed.

(** X15.  With a discount rate above -100%, net present value is monotone
    in the cash flows: raising any entry of the array, lowering none, does
    not lower the net present value. *)
Theorem X15_npv_monotone (cashflows cashflows' : list R) (d : R) :
  -100 < d ->
  Forall2 Rle cashflows cashflows' ->
  npv cashflows d <= npv cashflows' d.
Proof.
  intros Hd HF. unfold npv, reduce. rewrite pct_R.
  cbn [lit add div pow R_Number].
  apply reduce_from_monotone; [lra|exact HF|lra].
Qed.

(** X15 on two small arrays at 5%. *)
Lemma X15_npv_monotone_witness : npv [0; -2; 5] 5 <= npv [0; -1; 5] 5.
Proof.
  apply (@X15_npv_monotone [0; -2; 5] [0; -1; 5] 5); [lra|].
  repeat constructor; lra.
Defined.
